(** * Blocks and devices of the d2l TensorFlow notebooks

    A shallow embedding of the Python code of two notebooks:

    - [model-construction.ipynb]: the classes [MLP], [MySequential],
      [FixedHiddenMLP] and [NestMLP], each a block with a [call] method;
    - the GPU notebook: [try_gpu], [try_all_gpus] and the cells that place
      tensors on devices and add them.

    Python objects live in a store and are named by references, so that two
    names for one object (an alias) and a container that holds itself can be
    written down.  The tensor framework is not part of the notebooks: its
    operations are the fields of the class [Engine], and [F32] gives one
    instance of it over IEEE binary32 numbers. *)

From Stdlib Require Import ZArith List Bool String Ascii Lia.
From Stdlib Require Import Floats.SpecFloat.
From Stdlib Require Import DecimalString DecimalZ.
From stdpp Require Import base tactics option list.

Open Scope list_scope.

(* ================================================================== *)
(** * Part I: definitions *)
(* ================================================================== *)

(** ** Exceptions and outcomes *)

(** The exceptions a block can raise.  [NotCallable] is Python's [TypeError]
    for calling an object that has no [__call__]; [InvalidReference] stands
    for using a name that is bound to no object of the expected class. *)
Inductive Error : Type :=
| ShapeMismatch
| PlacementMismatch
| ConstructionError
| NotCallable
| InvalidReference.

(** What a Python expression evaluates to: a value, or a raised exception. *)
Inductive Outcome (A : Type) : Type :=
| Ok (a : A)
| Raise (e : Error).
Arguments Ok {A} a.
Arguments Raise {A} e.

(** ** The tensor framework, as the notebooks use it *)

(** The operations of the framework that [model-construction.ipynb] calls.
    A framework layer ([Dense], [Flatten]) is a value of [Layer]; calling it
    gives an outcome and the layer as it is after the call.  [layer_values]
    reads what the layer computes with (its configuration and weights);
    whatever else a layer holds is private to the framework. *)
Class Engine : Type := {
  Tensor : Type;
  Scalar : Type;
  (* tf.matmul(a, b) *)
  matmul : Tensor -> Tensor -> Outcome Tensor;
  (* t + k, for a Python int k *)
  add_scalar : Tensor -> Z -> Tensor;
  (* tf.nn.relu(t) *)
  relu : Tensor -> Tensor;
  (* tf.norm(t) *)
  norm : Tensor -> Scalar;
  (* bool(s > k), for a Python int k *)
  gt_scalar : Scalar -> Z -> bool;
  (* t / k, for a Python int k *)
  div_scalar : Tensor -> Z -> Tensor;
  (* tf.reduce_sum(t) *)
  reduce_sum : Tensor -> Scalar;
  (* a scalar is a tensor of shape () *)
  scalar_tensor : Scalar -> Tensor;
  Layer : Type;
  Values : Type;
  layer_call : Layer -> Tensor -> Outcome Tensor * Layer;
  layer_values : Layer -> Values
}.

(** ** Objects and the store *)

(** A reference names an object: its index in the store. *)
Abbreviation ref := nat.

Section Objects.
Context {E : Engine}.

(** The objects of [model-construction.ipynb], with their attributes.
    Attributes that hold blocks hold references.  [PyValue] is any Python
    value that is not a block (it cannot be called). *)
Inductive Obj : Type :=
| KerasLayer (l : Layer)
| MLP (hidden out : ref)
| MySequential (modules : list ref)
| FixedHiddenMLP (flatten : ref) (rand_weight : Tensor) (dense : ref)
| NestMLP (net dense : ref)
| PyValue (v : Z).

End Objects.

(** The store: the objects created so far, each at its reference. *)
Abbreviation Store := (list Obj).

Section Computations.
Context {E : Engine}.

(** A computation over the store: [None] when the fuel ran out before the
    computation ended, otherwise its outcome and the store it leaves. An
    exception keeps the store as it was when it was raised. *)
Definition M (A : Type) : Type := Store -> option (Outcome A * Store).

Definition ret {A} (a : A) : M A := fun s => Some (Ok a, s).

Definition raise {A} (e : Error) : M A := fun s => Some (Raise e, s).

Definition diverge {A} : M A := fun _ => None.

Definition bind {A B} (m : M A) (k : A -> M B) : M B :=
  fun s =>
    match m s with
    | None => None
    | Some (Ok a, s') => k a s'
    | Some (Raise e, s') => Some (Raise e, s')
    end.

Definition lift {A} (o : Outcome A) : M A := fun s => Some (o, s).

(** [self] with its class: the object a reference names. *)
Definition deref (r : ref) : M Obj :=
  fun s =>
    match s !! r with
    | Some o => Some (Ok o, s)
    | None => Some (Raise InvalidReference, s)
    end.

(** A new object, at the next free reference. *)
Definition alloc (o : Obj) : M ref := fun s => Some (Ok (length s), s ++ [o]).

End Computations.

Declare Scope block_scope.
Delimit Scope block_scope with block.
Notation "x <- c ;; k" := (bind c (fun x => k))
  (at level 100, c at next level, right associativity) : block_scope.
Notation "c ;;; k" := (bind c (fun _ => k))
  (at level 100, k at level 200, right associativity) : block_scope.
Open Scope block_scope.

Section Blocks.
Context {E : Engine}.

(** ** [MySequential] *)

(** [self.modules.append(block)] *)
Definition modules_append (self block : ref) : M unit :=
  o <- deref self ;;
  match o with
  | MySequential modules =>
      fun s => Some (Ok tt, <[self := MySequential (modules ++ [block])]> s)
  | _ => raise InvalidReference
  end.

(** [for block in args: self.modules.append(block)] *)
Fixpoint append_all (self : ref) (args : list ref) : M unit :=
  match args with
  | [] => ret tt
  | block :: rest => modules_append self block ;;; append_all self rest
  end.

(** [MySequential.__init__(self, *args)]: the new object starts with
    [self.modules = []], then every argument is appended. *)
Definition MySequential_init (args : list ref) : M ref :=
  self <- alloc (MySequential []) ;;
  append_all self args ;;;
  ret self.

(** [MySequential.call]:
    [for module in self.modules: x = module(x)], then [return x].
    [apply] is how a child is called. *)
Fixpoint MySequential_call (apply : ref -> Tensor -> M Tensor)
    (modules : list ref) (x : Tensor) : M Tensor :=
  match modules with
  | [] => ret x
  | module :: rest => x' <- apply module x ;; MySequential_call apply rest x'
  end.

(** ** [FixedHiddenMLP] *)

(** [while tf.norm(x) > 1: x /= 2]; [None] when [n] iterations were not
    enough to leave the loop. *)
Fixpoint halve_while (n : nat) (x : Tensor) : option Tensor :=
  match n with
  | O => None
  | S n' =>
      if gt_scalar (norm x) 1 then halve_while n' (div_scalar x 2) else Some x
  end.

Definition run_halve_while (n : nat) (x : Tensor) : M Tensor :=
  fun s =>
    match halve_while n x with
    | Some x' => Some (Ok x', s)
    | None => None
    end.

(** Reading [self.rand_weight] and [self.dense] at the time they are used. *)
Definition get_rand_weight (self : ref) : M Tensor :=
  o <- deref self ;;
  match o with
  | FixedHiddenMLP _ w _ => ret w
  | _ => raise InvalidReference
  end.

Definition get_dense (self : ref) : M ref :=
  o <- deref self ;;
  match o with
  | FixedHiddenMLP _ _ d => ret d
  | _ => raise InvalidReference
  end.

(** [FixedHiddenMLP.call(self, inputs)], statement by statement.  First the
    statements before the loop:
    [x = self.flatten(inputs)],
    [x = tf.nn.relu(tf.matmul(x, self.rand_weight) + 1)],
    [x = self.dense(x)]. *)
Definition FixedHiddenMLP_hidden (apply : ref -> Tensor -> M Tensor)
    (self flatten : ref) (inputs : Tensor) : M Tensor :=
  x <- apply flatten inputs ;;
  w <- get_rand_weight self ;;
  p <- lift (matmul x w) ;;
  let x := relu (add_scalar p 1) in
  dense <- get_dense self ;;
  apply dense x.

(** Then the loop, and [return tf.reduce_sum(x)]. *)
Definition FixedHiddenMLP_call (apply : ref -> Tensor -> M Tensor) (n : nat)
    (self flatten : ref) (inputs : Tensor) : M Tensor :=
  x <- FixedHiddenMLP_hidden apply self flatten inputs ;;
  x <- run_halve_while n x ;;
  ret (scalar_tensor (reduce_sum x)).

(** [FixedHiddenMLP.__init__]: the new object holds a new [Flatten] layer, the
    constant [tf.constant(tf.random.uniform((20, 20)))] and a new [Dense]
    layer.  The framework's constructors give [flatten_layer] and
    [dense_layer], and [drawn] is the tensor the random draw gives. *)
Definition FixedHiddenMLP_init (flatten_layer dense_layer : Layer)
    (drawn : Tensor) : M ref :=
  flatten <- alloc (KerasLayer flatten_layer) ;;
  dense <- alloc (KerasLayer dense_layer) ;;
  alloc (FixedHiddenMLP flatten drawn dense).

(** [x] after [k] rounds of [x /= 2]. *)
Definition halved (k : nat) (x : Tensor) : Tensor :=
  Nat.iter k (fun t => div_scalar t 2) x.

(** ** Calling a block *)

(** [block(x)]: the [call] method of the class of the object [self] names.
    The fuel [n] bounds both the depth of nested calls and the number of
    iterations of a loop; at fuel 0 nothing has been computed yet.

    - a framework layer runs [layer_call] and is replaced by the layer it
      leaves;
    - [MLP.call]: [self.out(self.hidden((x)))];
    - [NestMLP.call]: [self.dense(self.net(inputs))];
    - a value that is not a block raises. *)
Fixpoint call (n : nat) (self : ref) (x : Tensor) : M Tensor :=
  match n with
  | O => diverge
  | S n' =>
      o <- deref self ;;
      match o with
      | KerasLayer l =>
          fun s =>
            let '(y, l') := layer_call l x in
            Some (y, <[self := KerasLayer l']> s)
      | MLP hidden out => h <- call n' hidden x ;; call n' out h
      | MySequential modules => MySequential_call (call n') modules x
      | FixedHiddenMLP flatten _ _ =>
          FixedHiddenMLP_call (call n') n' self flatten x
      | NestMLP net dense => h <- call n' net x ;; call n' dense h
      | PyValue _ => raise NotCallable
      end
  end.

(** ** The composition the specification writes *)

(** [un.apply(... u2.apply(u1.apply(x)) ...)], by recursion on the units
    from the last one: the last unit is applied to what the units before it
    give.  [units_rev] lists the units last first. *)
Fixpoint nested_apply (apply : ref -> Tensor -> M Tensor)
    (units_rev : list ref) (x : Tensor) : M Tensor :=
  match units_rev with
  | [] => ret x
  | un :: before => y <- nested_apply apply before x ;; apply un y
  end.

Definition composition (apply : ref -> Tensor -> M Tensor)
    (units : list ref) (x : Tensor) : M Tensor :=
  nested_apply apply (rev units) x.

(** ** Views of the store *)

(** The constant tensor a unit holds ([rand_weight]), if it holds one. *)
Definition constants_of (s : Store) (r : ref) : option Tensor :=
  match s !! r with
  | Some (FixedHiddenMLP _ w _) => Some w
  | _ => None
  end.

(** The values of a framework layer's parameters, if [r] names one. *)
Definition parameters_of (s : Store) (r : ref) : option Values :=
  match s !! r with
  | Some (KerasLayer l) => Some (layer_values l)
  | _ => None
  end.

(** A run of apply calls, one after the other, outcomes dropped: the store
    after the last one. *)
Fixpoint apply_all (n : nat) (calls : list (ref * Tensor)) (s : Store)
    : option Store :=
  match calls with
  | [] => Some s
  | (r, x) :: rest =>
      match call n r x s with
      | Some (_, s') => apply_all n rest s'
      | None => None
      end
  end.

(** Two objects that are the same but for a framework layer, whose two
    versions are related by [R]. *)
Definition related_obj (R : Layer -> Layer -> Prop) (o1 o2 : Obj) : Prop :=
  match o1, o2 with
  | KerasLayer l1, KerasLayer l2 => R l1 l2
  | _, _ => o1 = o2
  end.

(** Two layers with the same values: they may differ in what the framework
    keeps besides them. *)
Definition same_layer_values (l1 l2 : Layer) : Prop :=
  layer_values l1 = layer_values l2.

(** Two stores with the same objects, attributes, constants and parameter
    values. *)
Definition same_values (s1 s2 : Store) : Prop :=
  Forall2 (related_obj same_layer_values) s1 s2.

(** [m2] returns whatever [m1] returns: [m1] may only run out of fuel
    earlier. *)
Definition approx {A} (m1 m2 : M A) : Prop :=
  forall s r, m1 s = Some r -> m2 s = Some r.

(** Two outcomes that are both values, related by [RA], or both the same
    exception. *)
Definition same_outcome {A} (RA : A -> A -> Prop) (o1 o2 : Outcome A) : Prop :=
  match o1, o2 with
  | Ok a, Ok b => RA a b
  | Raise e1, Raise e2 => e1 = e2
  | _, _ => False
  end.

(** Two runs that end alike: both out of fuel, or both with the same outcome
    and stores with the same values. *)
Definition same_run {A} (RA : A -> A -> Prop)
    (r1 r2 : option (Outcome A * Store)) : Prop :=
  match r1, r2 with
  | None, None => True
  | Some (o1, s1), Some (o2, s2) => same_outcome RA o1 o2 /\ same_values s1 s2
  | _, _ => False
  end.

(** [m] changes the store only by moving framework layers along [R]: no
    object of another class is changed. *)
Definition keeps (R : Layer -> Layer -> Prop) {A} (m : M A) : Prop :=
  forall s o s', m s = Some (o, s') -> Forall2 (related_obj R) s s'.

(** Two computations that, from stores with the same values, end alike. *)
Definition alike {A} (RA : A -> A -> Prop) (m1 m2 : M A) : Prop :=
  forall s1 s2, same_values s1 s2 -> same_run RA (m1 s1) (m2 s2).

(** The children of an object, and objects that reach themselves. *)
Definition children (o : Obj) : list ref :=
  match o with
  | KerasLayer _ => []
  | MLP hidden out => [hidden; out]
  | MySequential modules => modules
  | FixedHiddenMLP flatten _ dense => [flatten; dense]
  | NestMLP net dense => [net; dense]
  | PyValue _ => []
  end.

Inductive reaches (s : Store) : ref -> ref -> Prop :=
| reaches_child r o c : s !! r = Some o -> In c (children o) -> reaches s r c
| reaches_trans r1 r2 r3 : reaches s r1 r2 -> reaches s r2 r3 -> reaches s r1 r3.

Definition cyclic (s : Store) (r : ref) : Prop := reaches s r r.

End Blocks.

(** ** An engine over IEEE binary32 numbers *)

(** The notebooks compute with [float32] tensors.  [F32] gives the framework
    operations they use over the Standard Library's specification of IEEE 754
    arithmetic at precision 24 and maximal exponent 128 (round to nearest,
    ties to even).  Reductions add from the left, starting at [+0]. *)
Module F32.

Definition prec : Z := 24.
Definition emax : Z := 128.

Definition float32 : Type := spec_float.

Definition add : float32 -> float32 -> float32 := SFadd prec emax.
Definition mul : float32 -> float32 -> float32 := SFmul prec emax.
Definition div : float32 -> float32 -> float32 := SFdiv prec emax.
Definition sqrt : float32 -> float32 := SFsqrt prec emax.
Definition ltb : float32 -> float32 -> bool := SFltb.
Definition leb : float32 -> float32 -> bool := SFleb.

Definition zero : float32 := S754_zero false.

(** A Python int as a [float32]. *)
Definition of_Z (k : Z) : float32 := binary_normalize prec emax k 0 false.

(** Neither an infinity nor a NaN, and a number of the format. *)
Definition finite (x : float32) : bool :=
  match x with
  | S754_zero _ => true
  | S754_finite _ m e => bounded prec emax m e
  | _ => false
  end.

(** [max(x, 0)], keeping a NaN. *)
Definition relu1 (x : float32) : float32 := if ltb x zero then zero else x.

Definition sum (l : list float32) : float32 := fold_left add l zero.

Definition dot (a b : list float32) : float32 := sum (zip_with mul a b).

(** Tensors of rank 0, 1 and 2. *)
Inductive Tensor32 : Type :=
| T0 (v : float32)
| T1 (v : list float32)
| T2 (rows : list (list float32)).

Definition entries (t : Tensor32) : list float32 :=
  match t with
  | T0 v => [v]
  | T1 v => v
  | T2 rows => concat rows
  end.

Definition tmap (f : float32 -> float32) (t : Tensor32) : Tensor32 :=
  match t with
  | T0 v => T0 (f v)
  | T1 v => T1 (map f v)
  | T2 rows => T2 (map (map f) rows)
  end.

Definition all_finite (t : Tensor32) : bool := forallb finite (entries t).

(** Column [j] of a matrix given by its rows. *)
Definition column (rows : list (list float32)) (j : nat) : list float32 :=
  map (fun r => nth j r zero) rows.

Definition width (rows : list (list float32)) : nat :=
  match rows with
  | [] => O
  | r :: _ => length r
  end.

Definition rows_of_width (n : nat) (rows : list (list float32)) : bool :=
  forallb (fun r => Nat.eqb (length r) n) rows.

(** The product of two matrices; the inner dimensions must agree. *)
Definition matmul32 (a b : Tensor32) : Outcome Tensor32 :=
  match a, b with
  | T2 ra, T2 rb =>
      if rows_of_width (length rb) ra && rows_of_width (width rb) rb then
        Ok (T2 (map (fun r => map (fun j => dot r (column rb j))
                                  (seq 0 (width rb))) ra))
      else Raise ShapeMismatch
  | _, _ => Raise ShapeMismatch
  end.


Definition norm32 (t : Tensor32) : float32 :=
  sqrt (sum (map (fun v => mul v v) (entries t))).

(** The framework layers of the notebook: [Flatten()] and [Dense(units,
    activation)] with its kernel and bias, once they exist. *)
Inductive Layer32 : Type :=
| Flatten
| Dense (kernel : list (list float32)) (bias : list float32) (use_relu : bool).

(** [Flatten] keeps the first axis; [Dense] computes
    [activation(matmul(x, kernel) + bias)] on inputs of rank 2.  Neither
    changes the layer. *)
Definition layer_call32 (l : Layer32) (x : Tensor32)
    : Outcome Tensor32 * Layer32 :=
  match l with
  | Flatten =>
      match x with
      | T0 _ => (Raise ShapeMismatch, l)
      | T1 v => (Ok (T2 (map (fun a => [a]) v)), l)
      | T2 rows => (Ok (T2 rows), l)
      end
  | Dense kernel bias use_relu =>
      match matmul32 x (T2 kernel) with
      | Ok (T2 p) =>
          if Nat.eqb (length bias) (width kernel) then
            (Ok (T2 (map (fun r =>
                            map (fun v => if use_relu then relu1 v else v)
                                (zip_with add r bias)) p)), l)
          else (Raise ShapeMismatch, l)
      | Ok _ => (Raise ShapeMismatch, l)
      | Raise e => (Raise e, l)
      end
  end.

#[export] Instance engine : Engine := {|
  Tensor := Tensor32;
  Scalar := float32;
  matmul := matmul32;
  add_scalar := fun t k => tmap (fun v => add v (of_Z k)) t;
  relu := tmap relu1;
  norm := norm32;
  gt_scalar := fun s k => ltb (of_Z k) s;
  div_scalar := fun t k => tmap (fun v => div v (of_Z k)) t;
  reduce_sum := fun t => sum (entries t);
  scalar_tensor := T0;
  Layer := Layer32;
  Values := Layer32;
  layer_call := layer_call32;
  layer_values := fun l => l
|}.

(** Zero or positive, [+inf] included; not a NaN. *)
Definition is_nonneg (x : float32) : bool :=
  match x with
  | S754_zero _ => true
  | S754_finite false _ _ => true
  | S754_infinity false => true
  | _ => false
  end.

Definition is_zero (x : float32) : bool :=
  match x with
  | S754_zero _ => true
  | _ => false
  end.

(** How many halvings take a finite number to zero, at most: its exponent
    above the lowest one, plus the number of binary digits of [2 m - 1] for
    its mantissa [m]. *)
Definition weight (x : float32) : nat :=
  match x with
  | S754_finite _ m e =>
      Z.to_nat (e + 149) + Pos.to_nat (digits2_pos (Pos.pred_double m))
  | _ => 0
  end.

(** The largest weight of an entry. *)
Definition height (t : Tensor32) : nat :=
  fold_right (fun v acc => Nat.max (weight v) acc) 0 (entries t).

(** Some numbers. *)
Definition one : float32 := of_Z 1.
Definition two : float32 := of_Z 2.
Definition half : float32 := div one two.
Definition quarter : float32 := div half two.
Definition pinf : float32 := S754_infinity false.
(** 2^127, a finite number of the format. *)
Definition big : float32 := S754_finite false 8388608 104.

End F32.

(** ** The GPU notebook *)

Module Gpus.
Import F32.

(** [tf.device(name)]: a device context.  Inside [with ctx:], tensors are
    created on the device [ctx] names. *)
Record DeviceContext : Type := tf_device { device_name : string }.

(** [str(i)] for a Python int: its decimal digits, with a sign when
    negative. *)
Definition str (i : Z) : string := NilZero.string_of_int (Z.to_int i).

Definition cpu0 : DeviceContext := tf_device "/CPU:0".
Definition gpu (i : Z) : DeviceContext := tf_device ("/GPU:" ++ str i).

Section Machine.

(** [tf.config.experimental.list_physical_devices('GPU')]: the GPUs of the
    machine the notebook runs on. *)
Variable physical_gpus : list string.

(** [try_gpu(i=0)]: "Return gpu(i) if exists, otherwise return cpu()." *)
Definition try_gpu (i : Z) : DeviceContext :=
  if (Z.of_nat (length physical_gpus) >=? i + 1)%Z
  then tf_device ("/GPU:" ++ str i)
  else tf_device "/CPU:0".

(** [try_all_gpus()]: "Return all available GPUs, or [cpu(),] if no GPU
    exists."  A Python list is true when it is not empty. *)
Definition try_all_gpus : list DeviceContext :=
  let num_gpus := length physical_gpus in
  let ctxes :=
    map (fun i => tf_device ("/GPU:" ++ str (Z.of_nat i))) (seq 0 num_gpus) in
  match ctxes with
  | [] => [tf_device "/CPU:0"]
  | _ :: _ => ctxes
  end.

End Machine.

(** *** Tensors on devices *)












(** *** The cells that copy and add *)

Section Cells.
Variable physical_gpus : list string.





End Cells.


(** A machine with two GPUs, as in the recorded run. *)
Definition two_gpus : list string :=
  ["/physical_device:GPU:0"; "/physical_device:GPU:1"]%string.


(** *** The recorded run *)




End Gpus.

(** ** Small stores to run the blocks on *)

Module Examples.
Import F32.

(** Two dense layers, 2 to 2 with ReLU and 2 to 1 without activation. *)
Definition dense_a : Layer32 := Dense [[one; one]; [half; one]] [zero; one] true.
Definition dense_b : Layer32 := Dense [[one]; [two]] [one] false.

(** One row [1, 2]. *)
Definition x0 : Tensor32 := T2 [[one; two]].

Definition two_layers : Store := [KerasLayer dense_a; KerasLayer dense_b].

(** [inner = MySequential(a, a)], [outer = MySequential(a, inner, b)] and
    [flat = MySequential(a, a, a, b)] at references 2, 3 and 4. *)
Definition nested_store : Store :=
  two_layers ++
  [MySequential [0; 0]; MySequential [0; 2; 1]; MySequential [0; 0; 0; 1]].

(** A [FixedHiddenMLP] with a 2 by 2 constant, at reference 2. *)
Definition small_weight : Tensor32 := T2 [[half; half]; [half; half]].

Definition fixed_store : Store :=
  [KerasLayer Flatten; KerasLayer dense_a; FixedHiddenMLP 0 small_weight 1].

(** The same engine with layers that also count their calls: a state the
    layer keeps besides its values. *)
Definition counting_engine : Engine := {|
  Tensor := Tensor32;
  Scalar := float32;
  matmul := matmul32;
  add_scalar := @add_scalar engine;
  relu := @relu engine;
  norm := norm32;
  gt_scalar := @gt_scalar engine;
  div_scalar := @div_scalar engine;
  reduce_sum := @reduce_sum engine;
  scalar_tensor := T0;
  Layer := Layer32 * nat;
  Values := Layer32;
  layer_call := fun l x =>
    let '(y, l') := layer_call32 (fst l) x in (y, (l', S (snd l)));
  layer_values := fst
|}.

(** [fixed_store] with layers that have been called [c] times. *)
Definition counted_store (c : nat) : list (@Obj counting_engine) :=
  [@KerasLayer counting_engine (Flatten, c);
   @KerasLayer counting_engine (dense_a, c);
   @FixedHiddenMLP counting_engine 0 small_weight 1].

(** [a = MySequential()] followed by [a.modules.append(a)]: a container that
    is its own child. *)
Definition self_store : Store :=
  match (a <- MySequential_init [] ;; modules_append a a) [] with
  | Some (_, s) => s
  | None => []
  end.

(** A container with a child that is the integer 7. *)
Definition int_store : Store := [KerasLayer dense_a; PyValue 7].

(** A [FixedHiddenMLP] of the notebook's sizes: a 20 by 20 constant with
    every entry 1/2, and a [Dense(20, relu)] layer with a 20 by 20 kernel,
    every entry 1/4, and a bias of zeros. *)
Definition half_matrix : list (list float32) := repeat (repeat half 20) 20.
Definition quarter_matrix : list (list float32) :=
  repeat (repeat quarter 20) 20.

Definition overflow_store : Store :=
  [KerasLayer Flatten;
   KerasLayer (Dense quarter_matrix (repeat zero 20) true);
   FixedHiddenMLP 0 (T2 half_matrix) 1].

(** One row of 20 entries, each 2^127; and one of 20 entries [+inf]. *)
Definition big_input : Tensor32 := T2 [repeat big 20].
Definition inf_row : Tensor32 := T2 [repeat pinf 20].

End Examples.

(** ** Layers that are built by their first call *)

Module LazyLayers.
Import F32.

(** The kernel and the bias of a [Dense] layer. *)
Definition Weights : Type := (list (list float32) * list float32)%type.

(** The layers as the notebook's constructors make them.  [Dense(units,
    activation)] is given no input width: the layer has no kernel and no
    bias until its first call, which makes them for the width of its input.
    [initial n] is the kernel its initializer draws for an input of width
    [n]; the bias starts at zeros.  [Flatten()] has no parameters. *)
Inductive LazyLayer : Type :=
| LazyFlatten
| LazyDense (units : nat) (use_relu : bool)
    (initial : nat -> list (list float32)) (weights : option Weights).

(** The weights a first call on [x] makes; inputs that are no matrix are
    refused before any weight is made. *)
Definition build (units : nat) (initial : nat -> list (list float32))
    (x : Tensor32) : option Weights :=
  match x with
  | T2 rows => Some (initial (width rows), repeat zero units)
  | _ => None
  end.

(** A call builds the layer when it is not built, then computes as
    [layer_call32] does with the layer's weights, which it only reads. *)
Definition lazy_call (l : LazyLayer) (x : Tensor32)
    : Outcome Tensor32 * LazyLayer :=
  match l with
  | LazyFlatten => (fst (layer_call32 Flatten x), LazyFlatten)
  | LazyDense units use_relu initial (Some (kernel, bias)) =>
      (fst (layer_call32 (Dense kernel bias use_relu) x), l)
  | LazyDense units use_relu initial None =>
      match build units initial x with
      | Some (kernel, bias) =>
          (fst (layer_call32 (Dense kernel bias use_relu) x),
           LazyDense units use_relu initial (Some (kernel, bias)))
      | None => (Raise ShapeMismatch, l)
      end
  end.

(** The parameters of a layer: none until it is built. *)
Definition lazy_values (l : LazyLayer) : option Weights :=
  match l with
  | LazyFlatten => None
  | LazyDense _ _ _ weights => weights
  end.

Definition lazy_engine : Engine := {|
  Tensor := Tensor32;
  Scalar := float32;
  matmul := matmul32;
  add_scalar := @add_scalar engine;
  relu := @relu engine;
  norm := norm32;
  gt_scalar := @gt_scalar engine;
  div_scalar := @div_scalar engine;
  reduce_sum := @reduce_sum engine;
  scalar_tensor := T0;
  Layer := LazyLayer;
  Values := option Weights;
  layer_call := lazy_call;
  layer_values := lazy_values
|}.

(** A layer keeps the weights it has: it may only get weights it had
    not. *)
Definition keeps_weights (l l' : LazyLayer) : Prop :=
  forall w, lazy_values l = Some w -> lazy_values l' = Some w.

(** [net = FixedHiddenMLP()] with a 2 by 2 constant and [Dense(2, relu)],
    whose initializer draws 1/4 everywhere: before any call, and after the
    first. *)
Definition quarters (n : nat) : list (list float32) :=
  repeat (repeat quarter 2) n.

Definition new_store : list (@Obj lazy_engine) :=
  [@KerasLayer lazy_engine LazyFlatten;
   @KerasLayer lazy_engine (LazyDense 2 true quarters None);
   @FixedHiddenMLP lazy_engine 0 (T2 [[half; half]; [half; half]]) 1].

Definition built_store : list (@Obj lazy_engine) :=
  [@KerasLayer lazy_engine LazyFlatten;
   @KerasLayer lazy_engine
     (LazyDense 2 true quarters
        (Some ([[quarter; quarter]; [quarter; quarter]], [zero; zero])));
   @FixedHiddenMLP lazy_engine 0 (T2 [[half; half]; [half; half]]) 1].

End LazyLayers.

(** ** More of the notebooks *)

Section MoreBlocks.
Context {E : Engine}.

(** [MLP.__init__]: the new object holds two new [Dense] layers,
    [self.hidden] and [self.out], which the framework's constructor gives as
    [hidden_layer] and [out_layer]. *)
Definition MLP_init (hidden_layer out_layer : Layer) : M ref :=
  hidden <- alloc (KerasLayer hidden_layer) ;;
  out <- alloc (KerasLayer out_layer) ;;
  alloc (MLP hidden out).

(** Every reference an object holds names an object of the store. *)
Definition closed (s : Store) : Prop :=
  forall r o c, s !! r = Some o -> In c (children o) -> c < length s.

Definition closedb (s : Store) : bool :=
  forallb (fun o => forallb (fun c => c <? length s) (children o)) s.

(** Every reference an object holds names an object made before it: the
    order in which [a = Dense(...)], [b = Dense(...)],
    [net = MySequential(a, b)] make their objects. *)
Definition ordered (s : Store) : Prop :=
  forall r o c, s !! r = Some o -> In c (children o) -> c < r.

Fixpoint ordered_from (r : ref) (s : Store) : bool :=
  match s with
  | [] => true
  | o :: rest =>
      forallb (fun c => c <? r) (children o) && ordered_from (S r) rest
  end.

Definition orderedb (s : Store) : bool := ordered_from 0 s.

(** No object of the store has the [while] loop in its [call]. *)
Definition loop_free (s : Store) : bool :=
  forallb (fun o => match o with
                    | FixedHiddenMLP _ _ _ => false
                    | _ => true
                    end) s.

(** [m] run with the objects [ext] after those of [s] does what it does on
    [s] alone, and leaves [ext] as it is. *)
Definition unaware (ext : Store) {A} (m : M A) (s : Store) : Prop :=
  m (s ++ ext)
  = match m s with
    | Some (o, s') => Some (o, s' ++ ext)
    | None => None
    end.

End MoreBlocks.

Section MoreFloats.
Import F32.

Definition is_nan (x : float32) : bool :=
  match x with
  | S754_nan => true
  | _ => false
  end.

Definition is_inf (x : float32) : bool :=
  match x with
  | S754_infinity _ => true
  | _ => false
  end.

(** A number of the format or an infinity: no NaN. *)
Definition is_number (x : float32) : bool := finite x || is_inf x.

Definition has_nan (t : Tensor32) : bool := existsb is_nan (entries t).
Definition has_inf (t : Tensor32) : bool := existsb is_inf (entries t).
Definition all_numbers (t : Tensor32) : bool := forallb is_number (entries t).

(** Not negative, or a NaN. *)
Definition nonneg_or_nan (x : float32) : bool := is_nonneg x || is_nan x.

End MoreFloats.

(* ================================================================== *)
(** * Part II: properties *)
(* ================================================================== *)

(** Both sides of an equation between closed terms are evaluated, then
    compared. *)
Ltac run_both :=
  match goal with
  | |- ?a = ?b =>
      let a' := eval vm_compute in a in
      let b' := eval vm_compute in b in
      change (a' = b'); reflexivity
  end.

(** ** The monad of store computations *)

Section MonadFacts.
Context {E : Engine}.

Lemma bind_ret_r {A} (m : M A) s : (x <- m ;; ret x) s = m s.
Proof.
  unfold bind, ret. destruct (m s) as [[[a|e] s']|]; reflexivity.
Qed.

Lemma bind_assoc {A B C} (m : M A) (f : A -> M B) (g : B -> M C) s :
  (y <- (x <- m ;; f x) ;; g y) s = (x <- m ;; y <- f x ;; g y) s.
Proof.
  unfold bind. destruct (m s) as [[[a|e] s']|]; reflexivity.
Qed.

Lemma bind_ext {A B} (m : M A) (f g : A -> M B) s :
  (forall a s', f a s' = g a s') -> (x <- m ;; f x) s = (x <- m ;; g x) s.
Proof.
  intros Hfg. unfold bind. destruct (m s) as [[[a|e] s']|]; auto.
Qed.

Lemma approx_refl {A} (m : M A) : approx m m.
Proof. intros s r Hr; exact Hr. Qed.

Lemma approx_bind {A B} (m1 m2 : M A) (k1 k2 : A -> M B) :
  approx m1 m2 -> (forall a, approx (k1 a) (k2 a)) ->
  approx (x <- m1 ;; k1 x) (x <- m2 ;; k2 x).
Proof.
  intros Hm Hk s r. unfold bind.
  destruct (m1 s) as [[[a|e] s1]|] eqn:H1; [| |discriminate].
  - rewrite (Hm _ _ H1). apply Hk.
  - rewrite (Hm _ _ H1). auto.
Qed.

End MonadFacts.

Section SequentialFacts.
Context {E : Engine}.
Implicit Types (apply : ref -> Tensor -> M Tensor) (s : Store).

(** The loop over [l1 ++ l2] runs the loop over [l1], then the one over
    [l2] on its result. *)
Lemma MySequential_call_app apply l1 l2 x s :
  MySequential_call apply (l1 ++ l2) x s
  = (y <- MySequential_call apply l1 x ;; MySequential_call apply l2 y) s.
Proof.
  revert x s. induction l1 as [|u l1 IH]; intros x s; simpl.
  - reflexivity.
  - rewrite bind_assoc. apply bind_ext. intros a s'. apply IH.
Qed.

Lemma MySequential_call_cons apply u l x s :
  MySequential_call apply (u :: l) x s
  = (y <- apply u x ;; MySequential_call apply l y) s.
Proof. reflexivity. Qed.

Lemma MySequential_call_snoc apply l u x s :
  MySequential_call apply (l ++ [u]) x s
  = (y <- MySequential_call apply l x ;; apply u y) s.
Proof.
  rewrite MySequential_call_app. apply bind_ext. intros a s'.
  simpl. apply bind_ret_r.
Qed.

Lemma composition_snoc apply l u x s :
  composition apply (l ++ [u]) x s
  = (y <- composition apply l x ;; apply u y) s.
Proof. unfold composition. rewrite rev_app_distr. reflexivity. Qed.

(** The loop of [MySequential.call] computes the nested composition. *)
Lemma MySequential_call_composition apply l x s :
  MySequential_call apply l x s = composition apply l x s.
Proof.
  revert x s. induction l as [|u l IH] using rev_ind; intros x s.
  - reflexivity.
  - rewrite MySequential_call_snoc, composition_snoc.
    unfold bind. rewrite IH. reflexivity.
Qed.

Lemma MySequential_call_approx apply1 apply2 l x :
  (forall r y, approx (apply1 r y) (apply2 r y)) ->
  approx (MySequential_call apply1 l x) (MySequential_call apply2 l x).
Proof.
  intros H. revert x. induction l as [|u l IH]; intros x; simpl.
  - apply approx_refl.
  - apply approx_bind; auto.
Qed.

(** *** The constructor *)

Lemma modules_append_last s pre block :
  modules_append (length s) block (s ++ [MySequential pre])
  = Some (Ok tt, s ++ [MySequential (pre ++ [block])]).
Proof.
  unfold modules_append, bind, deref.
  rewrite list_lookup_middle by reflexivity.
  rewrite insert_app_r_alt by lia.
  rewrite Nat.sub_diag. reflexivity.
Qed.

Lemma append_all_last s pre args :
  append_all (length s) args (s ++ [MySequential pre])
  = Some (Ok tt, s ++ [MySequential (pre ++ args)]).
Proof.
  revert pre. induction args as [|b args IH]; intros pre; simpl.
  - rewrite app_nil_r. reflexivity.
  - unfold bind. rewrite modules_append_last, IH, <- app_assoc. reflexivity.
Qed.

(** The constructor of [MySequential] never fails: it adds one object to the store,
    whose [modules] are the arguments in order. *)
Lemma MySequential_init_spec args s :
  MySequential_init args s
  = Some (Ok (length s), s ++ [MySequential args]).
Proof.
  unfold MySequential_init, bind, alloc.
  rewrite append_all_last. reflexivity.
Qed.

Lemma call_MySequential n self modules x s :
  s !! self = Some (MySequential modules) ->
  call (S n) self x s = MySequential_call (call n) modules x s.
Proof.
  intros Hs. simpl. unfold bind, deref. rewrite Hs. reflexivity.
Qed.

End SequentialFacts.

(** ** Fuel *)

Section FuelFacts.
Context {E : Engine}.

Lemma call_S n self x :
  call (S n) self x
  = (o <- deref self ;;
     match o with
     | KerasLayer l =>
         fun s =>
           let '(y, l') := layer_call l x in
           Some (y, <[self := KerasLayer l']> s)
     | MLP hidden out => h <- call n hidden x ;; call n out h
     | MySequential modules => MySequential_call (call n) modules x
     | FixedHiddenMLP flatten _ _ =>
         FixedHiddenMLP_call (call n) n self flatten x
     | NestMLP net dense => h <- call n net x ;; call n dense h
     | PyValue _ => raise NotCallable
     end).
Proof. reflexivity. Qed.

Lemma halve_while_S n x r :
  halve_while n x = Some r -> halve_while (S n) x = Some r.
Proof.
  revert x. induction n as [|n IH]; intros x; [discriminate|].
  simpl. destruct (gt_scalar (norm x) 1); [|auto].
  intros H. apply IH in H. exact H.
Qed.

Lemma run_halve_while_approx n x :
  approx (run_halve_while n x) (run_halve_while (S n) x).
Proof.
  intros s r. unfold run_halve_while.
  destruct (halve_while n x) as [t|] eqn:Ht; [|discriminate].
  rewrite (halve_while_S _ _ _ Ht). auto.
Qed.

Lemma FixedHiddenMLP_hidden_approx apply1 apply2 self flatten x :
  (forall r y, approx (apply1 r y) (apply2 r y)) ->
  approx (FixedHiddenMLP_hidden apply1 self flatten x)
         (FixedHiddenMLP_hidden apply2 self flatten x).
Proof.
  intros H. unfold FixedHiddenMLP_hidden.
  apply approx_bind; [apply H|]. intros x1.
  apply approx_bind; [apply approx_refl|]. intros w.
  apply approx_bind; [apply approx_refl|]. intros p.
  apply approx_bind; [apply approx_refl|]. intros d.
  apply H.
Qed.

Lemma FixedHiddenMLP_call_approx apply1 apply2 n self flatten x :
  (forall r y, approx (apply1 r y) (apply2 r y)) ->
  approx (FixedHiddenMLP_call apply1 n self flatten x)
         (FixedHiddenMLP_call apply2 (S n) self flatten x).
Proof.
  intros H. unfold FixedHiddenMLP_call.
  apply approx_bind; [apply FixedHiddenMLP_hidden_approx, H|]. intros x3.
  apply approx_bind; [apply run_halve_while_approx|]. intros x4.
  apply approx_refl.
Qed.

(** More fuel never changes what a call returns. *)
Lemma call_approx_S n : forall self x, approx (call n self x) (call (S n) self x).
Proof.
  induction n as [|n IH]; intros self x.
  - intros s r; discriminate.
  - rewrite (call_S (S n)), (call_S n).
    apply approx_bind; [apply approx_refl|].
    intros [l|hidden out|modules|flatten w dense|net dense|v].
    + apply approx_refl.
    + apply approx_bind; auto.
    + apply MySequential_call_approx; auto.
    + apply FixedHiddenMLP_call_approx; auto.
    + apply approx_bind; auto.
    + apply approx_refl.
Qed.

Lemma call_approx n m self x :
  n <= m -> approx (call n self x) (call m self x).
Proof.
  induction 1 as [|m _ IH]; [apply approx_refl|].
  intros s r H. apply call_approx_S. auto.
Qed.

End FuelFacts.

(** ** What a call leaves in the store *)

Section Frame.
Context {E : Engine}.
Variable R : Layer -> Layer -> Prop.
Hypothesis R_refl : forall l, R l l.
Hypothesis R_trans : forall a b c, R a b -> R b c -> R a c.
Hypothesis R_step : forall l x, R l (snd (layer_call l x)).

Lemma related_obj_refl o : related_obj R o o.
Proof. destruct o; simpl; auto. Qed.

Lemma related_obj_trans o1 o2 o3 :
  related_obj R o1 o2 -> related_obj R o2 o3 -> related_obj R o1 o3.
Proof.
  destruct o1, o2; simpl; intros H12 H23; try discriminate;
    try congruence.
  destruct o3; simpl in *; try discriminate; eauto.
Qed.

Lemma related_store_refl (s : Store) : Forall2 (related_obj R) s s.
Proof. induction s; constructor; auto using related_obj_refl. Qed.

Lemma related_store_trans (s1 s2 s3 : Store) :
  Forall2 (related_obj R) s1 s2 -> Forall2 (related_obj R) s2 s3 ->
  Forall2 (related_obj R) s1 s3.
Proof. apply Forall2_trans, related_obj_trans. Qed.

Lemma keeps_pure {A} (o : Outcome A) : keeps R (lift o).
Proof. intros s o' s' H. inversion H; subst. apply related_store_refl. Qed.

Lemma keeps_bind {A B} (m : M A) (k : A -> M B) :
  keeps R m -> (forall a, keeps R (k a)) -> keeps R (x <- m ;; k x).
Proof.
  intros Hm Hk s o s'. unfold bind.
  destruct (m s) as [[[a|e] s1]|] eqn:H1; [| |discriminate].
  - intros H2. eapply related_store_trans; [eapply Hm|eapply Hk]; eauto.
  - intros H2. inversion H2; subst. eapply Hm; eauto.
Qed.

Lemma keeps_deref r : keeps R (deref r).
Proof.
  intros s o s'. unfold deref.
  destruct (s !! r); intros H; inversion H; subst; apply related_store_refl.
Qed.

Lemma keeps_get_rand_weight self : keeps R (get_rand_weight self).
Proof.
  apply keeps_bind; [apply keeps_deref|].
  intros []; first [apply (keeps_pure (Ok _)) | apply (keeps_pure (Raise _))].
Qed.

Lemma keeps_get_dense self : keeps R (get_dense self).
Proof.
  apply keeps_bind; [apply keeps_deref|].
  intros []; first [apply (keeps_pure (Ok _)) | apply (keeps_pure (Raise _))].
Qed.

Lemma keeps_run_halve_while n x : keeps R (run_halve_while n x).
Proof.
  intros s o s'. unfold run_halve_while.
  destruct (halve_while n x); [|discriminate].
  intros H; inversion H; subst. apply related_store_refl.
Qed.

Lemma keeps_MySequential_call apply modules :
  (forall r y, keeps R (apply r y)) ->
  forall x, keeps R (MySequential_call apply modules x).
Proof.
  intros H. induction modules as [|u l IH]; intros x; simpl.
  - apply (keeps_pure (Ok x)).
  - apply keeps_bind; auto.
Qed.

Lemma keeps_FixedHiddenMLP_call apply n self flatten x :
  (forall r y, keeps R (apply r y)) ->
  keeps R (FixedHiddenMLP_call apply n self flatten x).
Proof.
  intros H. unfold FixedHiddenMLP_call, FixedHiddenMLP_hidden.
  apply keeps_bind.
  - apply keeps_bind; [apply H|]. intros x1.
    apply keeps_bind; [apply keeps_get_rand_weight|]. intros w.
    apply keeps_bind; [apply keeps_pure|]. intros p.
    apply keeps_bind; [apply keeps_get_dense|]. intros d.
    apply H.
  - intros x3.
    apply keeps_bind; [apply keeps_run_halve_while|]. intros x4.
    apply (keeps_pure (Ok _)).
Qed.

Lemma keeps_layer_step self l x (s : Store) :
  s !! self = Some (KerasLayer l) ->
  Forall2 (related_obj R) s (<[self := KerasLayer (snd (layer_call l x))]> s).
Proof.
  intros Hs.
  rewrite <- (list_insert_id s self (KerasLayer l)) at 1 by exact Hs.
  apply Forall2_insert; [apply related_store_refl|]. simpl. apply R_step.
Qed.

(** A call changes no object of the notebook's classes, and moves the
    framework layers along [R] only. *)
Lemma call_keeps n : forall self x, keeps R (call n self x).
Proof.
  induction n as [|n IH]; intros self x.
  - intros s o s'; discriminate.
  - rewrite call_S. intros s o s'. unfold bind at 1, deref.
    destruct (s !! self) as [ob|] eqn:Hs.
    + destruct ob as [l|hidden out|modules|flatten w dense|net dense|v].
      * destruct (layer_call l x) as [y l'] eqn:Hl. intros H.
        inversion H; subst.
        replace l' with (snd (layer_call l x)) by (rewrite Hl; reflexivity).
        apply keeps_layer_step; auto.
      * apply keeps_bind; auto.
      * apply keeps_MySequential_call; auto.
      * apply keeps_FixedHiddenMLP_call; auto.
      * apply keeps_bind; auto.
      * apply (keeps_pure (Raise NotCallable)).
    + intros H; inversion H; subst. apply related_store_refl.
Qed.

Lemma apply_all_keeps n calls : forall s s' : Store,
  apply_all n calls s = Some s' -> Forall2 (related_obj R) s s'.
Proof.
  induction calls as [|[r x] calls IH]; intros s s'; simpl.
  - intros H; inversion H; subst. apply related_store_refl.
  - destruct (call n r x s) as [[o s1]|] eqn:H1; [|discriminate].
    intros H2. eapply related_store_trans; [eapply call_keeps|eapply IH]; eauto.
Qed.

End Frame.

(** ** Two runs *)

Section TwoRuns.
Context {E : Engine}.

(** The framework layers compute from their values and their input alone:
    two layers with the same values give the same outcome on the same input
    and have the same values afterwards. *)
Hypothesis layers_deterministic : forall l1 l2 t,
  same_layer_values l1 l2 ->
  fst (layer_call l1 t) = fst (layer_call l2 t) /\
  same_layer_values (snd (layer_call l1 t)) (snd (layer_call l2 t)).

Lemma alike_bind {A B} RA RB (m1 m2 : M A) (k1 k2 : A -> M B) :
  alike RA m1 m2 -> (forall a b, RA a b -> alike RB (k1 a) (k2 b)) ->
  alike RB (x <- m1 ;; k1 x) (x <- m2 ;; k2 x).
Proof.
  intros Hm Hk s1 s2 Hs. specialize (Hm s1 s2 Hs). unfold bind.
  destruct (m1 s1) as [[[a|e] t1]|], (m2 s2) as [[[b|e'] t2]|];
    simpl in Hm; try contradiction; try (destruct Hm; contradiction); auto.
  destruct Hm as [Hab Ht]. apply Hk; auto.
Qed.

Lemma alike_lift {A} (o : Outcome A) : alike eq (lift o) (lift o).
Proof. intros s1 s2 Hs. simpl. destruct o; simpl; split; auto. Qed.

Lemma alike_deref r :
  alike (related_obj same_layer_values) (deref r) (deref r).
Proof.
  intros s1 s2 Hs. unfold deref.
  pose proof (proj1 (Forall2_lookup _ _ _) Hs r) as Hr.
  destruct Hr as [o1 o2 Ho|]; simpl; split; auto.
Qed.

Lemma alike_get_rand_weight self :
  alike eq (get_rand_weight self) (get_rand_weight self).
Proof.
  eapply alike_bind; [apply alike_deref|].
  intros o1 o2 Ho. destruct o1, o2; simpl in Ho; try discriminate;
    try (apply (alike_lift (Raise _))).
  inversion Ho; subst. apply (alike_lift (Ok _)).
Qed.

Lemma alike_get_dense self : alike eq (get_dense self) (get_dense self).
Proof.
  eapply alike_bind; [apply alike_deref|].
  intros o1 o2 Ho. destruct o1, o2; simpl in Ho; try discriminate;
    try (apply (alike_lift (Raise _))).
  inversion Ho; subst. apply (alike_lift (Ok _)).
Qed.

Lemma alike_run_halve_while n x :
  alike eq (run_halve_while n x) (run_halve_while n x).
Proof.
  intros s1 s2 Hs. unfold run_halve_while.
  destruct (halve_while n x); simpl; [split|]; auto.
Qed.

Lemma alike_MySequential_call apply1 apply2 modules :
  (forall r x, alike eq (apply1 r x) (apply2 r x)) ->
  forall x, alike eq (MySequential_call apply1 modules x)
                     (MySequential_call apply2 modules x).
Proof.
  intros H. induction modules as [|u l IH]; intros x; simpl.
  - apply (alike_lift (Ok x)).
  - eapply alike_bind; [apply H|]. intros a b ->. apply IH.
Qed.

Lemma alike_FixedHiddenMLP_call apply1 apply2 n self flatten x :
  (forall r y, alike eq (apply1 r y) (apply2 r y)) ->
  alike eq (FixedHiddenMLP_call apply1 n self flatten x)
           (FixedHiddenMLP_call apply2 n self flatten x).
Proof.
  intros H. unfold FixedHiddenMLP_call, FixedHiddenMLP_hidden.
  eapply alike_bind.
  - eapply alike_bind; [apply H|]. intros x1 ? <-.
    eapply alike_bind; [apply alike_get_rand_weight|]. intros w ? <-.
    eapply alike_bind; [apply alike_lift|]. intros p ? <-.
    eapply alike_bind; [apply alike_get_dense|]. intros d ? <-.
    apply H.
  - intros x3 ? <-.
    eapply alike_bind; [apply alike_run_halve_while|]. intros x4 ? <-.
    apply (alike_lift (Ok _)).
Qed.

Lemma alike_layer_step self l1 l2 x (s1 s2 : Store) :
  same_values s1 s2 -> same_layer_values l1 l2 ->
  same_run eq
    (let '(y, l') := layer_call l1 x in Some (y, <[self := KerasLayer l']> s1))
    (let '(y, l') := layer_call l2 x in Some (y, <[self := KerasLayer l']> s2)).
Proof.
  intros Hs Hl. destruct (layers_deterministic l1 l2 x Hl) as [Hy Hv].
  destruct (layer_call l1 x) as [y1 l1'], (layer_call l2 x) as [y2 l2'].
  simpl in *. subst y2. split.
  - destruct y1; simpl; auto.
  - apply Forall2_insert; auto.
Qed.

(** Calls from stores with the same values end alike. *)
Lemma call_alike n : forall self x, alike eq (call n self x) (call n self x).
Proof.
  induction n as [|n IH]; intros self x.
  - intros s1 s2 Hs. exact I.
  - rewrite call_S. eapply alike_bind; [apply alike_deref|].
    intros o1 o2 Ho.
    destruct o1 as [l1| | | | |], o2 as [l2| | | | |]; simpl in Ho;
      try discriminate; try (inversion Ho; subst).
    + intros s1 s2 Hs. apply alike_layer_step; auto.
    + eapply alike_bind; [apply IH|]. intros a b ->. apply IH.
    + apply alike_MySequential_call; auto.
    + apply alike_FixedHiddenMLP_call; auto.
    + eapply alike_bind; [apply IH|]. intros a b ->. apply IH.
    + apply (alike_lift (Raise NotCallable)).
Qed.

End TwoRuns.

(** ** Containers *)

Section ContainerClaims.
Context {E : Engine}.

(** C1.  A container built by [MySequential] from the units [u1, ..., un]
    applies them left to right: its call equals the nested composition
    [un.apply(... u2.apply(u1.apply(x)) ...)], with each child's output the
    next child's input, and when the units end with [last] the container's
    output is the output of [last] on what the units before it give.  Both
    hold with the same store effects and the same exceptions. *)
Theorem container_apply_is_composition n units x (s s' : Store) self :
  MySequential_init units s = Some (Ok self, s') ->
  call (S n) self x s' = composition (call n) units x s' /\
  forall before last, units = before ++ [last] ->
    call (S n) self x s'
    = (y <- composition (call n) before x ;; call n last y) s'.
Proof.
  rewrite MySequential_init_spec. intros Hinit.
  inversion Hinit; subst self s'; clear Hinit.
  assert (Hself : (s ++ [MySequential units]) !! length s
                  = Some (MySequential units))
    by (apply list_lookup_middle; reflexivity).
  rewrite (call_MySequential _ _ _ _ _ Hself). split.
  - apply MySequential_call_composition.
  - intros before last ->.
    rewrite MySequential_call_snoc. unfold bind.
    rewrite MySequential_call_composition. reflexivity.
Qed.

(** C2.  A container with no children can be built, and its call returns its
    input unchanged and leaves the store as it is. *)
Theorem empty_container_is_identity n x (s : Store) :
  exists self s',
    MySequential_init [] s = Some (Ok self, s') /\
    call (S n) self x s' = Some (Ok x, s').
Proof.
  exists (length s), (s ++ [MySequential []]). split.
  - apply MySequential_init_spec.
  - rewrite (call_MySequential _ _ []); [reflexivity|].
    apply list_lookup_middle; reflexivity.
Qed.

(** With the children before [inner] run, [inner] is still the container it
    was. *)
Lemma container_survives apply before x (s s1 : Store) o r modules :
  (forall u y, keeps (fun _ _ => True) (apply u y)) ->
  MySequential_call apply before x s = Some (o, s1) ->
  s !! r = Some (MySequential modules) ->
  s1 !! r = Some (MySequential modules).
Proof.
  intros Hk Hrun Hr.
  pose proof (keeps_MySequential_call (fun _ _ => True) (fun _ => I)
                (fun _ _ _ _ _ => I) apply before Hk x s o s1 Hrun) as Hf.
  destruct (Forall2_lookup_l _ _ _ _ _ Hf Hr) as (o' & Ho' & Hrel).
  simpl in Hrel. congruence.
Qed.

Lemma call_keeps_classes n u y : keeps (fun _ _ => True) (call n u y).
Proof. apply call_keeps; auto. Qed.

(** C3.  Nesting is associative.  Let [inner] be a container of the units
    [mid], [outer] a container of [before ++ [inner] ++ after] and [flat] a
    container of [before ++ mid ++ after].  Then [outer] and [flat] return
    the same: whatever one returns on [x] (output or exception, and store),
    the other returns too.  With [before = [u1]], [mid = [u2; u3]] and
    [after = [u4]] this is the claim's example. *)
Theorem nesting_is_associative (s : Store) outer inner flat before mid after x res :
  s !! inner = Some (MySequential mid) ->
  s !! outer = Some (MySequential (before ++ inner :: after)) ->
  s !! flat = Some (MySequential (before ++ mid ++ after)) ->
  (exists n, call n outer x s = Some res) <->
  (exists n, call n flat x s = Some res).
Proof.
  intros Hinner Houter Hflat. split; intros [n Hn].
  - destruct n as [|n]; [discriminate|].
    rewrite (call_MySequential _ _ _ _ _ Houter) in Hn.
    rewrite MySequential_call_app in Hn. unfold bind in Hn.
    exists (S n). rewrite (call_MySequential _ _ _ _ _ Hflat).
    rewrite MySequential_call_app. unfold bind.
    destruct (MySequential_call (call n) before x s) as [[[y|e] s1]|] eqn:Hb;
      [|exact Hn|discriminate].
    rewrite MySequential_call_app. unfold bind.
    rewrite MySequential_call_cons in Hn. unfold bind in Hn.
    assert (Hin1 : s1 !! inner = Some (MySequential mid))
      by (eapply container_survives; eauto using call_keeps_classes).
    destruct n as [|n']; [discriminate|].
    rewrite (call_MySequential _ _ _ _ _ Hin1) in Hn.
    destruct (MySequential_call (call n') mid y s1) as [[[z|e] s2]|] eqn:Hm;
      [| |discriminate].
    + rewrite (MySequential_call_approx (call n') (call (S n')) mid y
                 (call_approx_S n') _ _ Hm). exact Hn.
    + rewrite (MySequential_call_approx (call n') (call (S n')) mid y
                 (call_approx_S n') _ _ Hm). exact Hn.
  - destruct n as [|n]; [discriminate|].
    rewrite (call_MySequential _ _ _ _ _ Hflat) in Hn.
    rewrite MySequential_call_app in Hn. unfold bind in Hn.
    exists (S (S n)). rewrite (call_MySequential _ _ _ _ _ Houter).
    rewrite MySequential_call_app. unfold bind.
    destruct (MySequential_call (call n) before x s) as [[[y|e] s1]|] eqn:Hb;
      [| |discriminate].
    + rewrite (MySequential_call_approx (call n) (call (S n)) before x
                 (call_approx_S n) _ _ Hb).
      assert (Hin1 : s1 !! inner = Some (MySequential mid))
        by (eapply container_survives; eauto using call_keeps_classes).
      rewrite MySequential_call_cons. unfold bind.
      rewrite (call_MySequential _ _ _ _ _ Hin1).
      rewrite MySequential_call_app in Hn. unfold bind in Hn.
      destruct (MySequential_call (call n) mid y s1) as [[[z|e] s2]|] eqn:Hm;
        [| |discriminate].
      * apply (MySequential_call_approx (call n) (call (S n)) after z
                 (call_approx_S n)). exact Hn.
      * exact Hn.
    + rewrite (MySequential_call_approx (call n) (call (S n)) before x
                 (call_approx_S n) _ _ Hb). exact Hn.
Qed.

End ContainerClaims.

(** ** Parameters, constants and determinism *)

Section UnitClaims.
Context {E : Engine}.

Lemma constants_of_related R (s s' : Store) r :
  Forall2 (related_obj R) s s' -> constants_of s' r = constants_of s r.
Proof.
  intros Hf. unfold constants_of.
  pose proof (proj1 (Forall2_lookup _ _ _) Hf r) as Hr.
  destruct Hr as [o o' Ho|]; [|reflexivity].
  destruct o, o'; simpl in Ho; try discriminate; try reflexivity.
  inversion Ho; reflexivity.
Qed.

Lemma parameters_of_related (s s' : Store) r :
  Forall2 (related_obj same_layer_values) s s' ->
  parameters_of s' r = parameters_of s r.
Proof.
  intros Hf. unfold parameters_of.
  pose proof (proj1 (Forall2_lookup _ _ _) Hf r) as Hr.
  destruct Hr as [o o' Ho|]; [|reflexivity].
  destruct o, o'; simpl in Ho; try discriminate; try reflexivity.
  unfold same_layer_values in Ho. congruence.
Qed.

Lemma FixedHiddenMLP_init_spec flatten_layer dense_layer drawn (s : Store) :
  FixedHiddenMLP_init flatten_layer dense_layer drawn s
  = Some (Ok (S (S (length s))),
          s ++ [KerasLayer flatten_layer; KerasLayer dense_layer;
                FixedHiddenMLP (length s) drawn (S (length s))]).
Proof.
  unfold FixedHiddenMLP_init, bind, alloc.
  rewrite !length_app, <- !app_assoc. simpl.
  rewrite Nat.add_1_r, Nat.add_1_r. reflexivity.
Qed.

(** C5.  Apply is deterministic.  When the framework's layers compute from
    their values and their input alone, two calls of the same unit with the
    same input, from stores that hold the same objects with the same
    constants and parameter values, end alike: both with the same output, or
    both with the same exception, or both still running at this fuel; and
    the stores they leave again hold the same values. *)
Theorem apply_is_deterministic n self x (s1 s2 : Store) :
  (forall l1 l2 t, same_layer_values l1 l2 ->
     fst (layer_call l1 t) = fst (layer_call l2 t) /\
     same_layer_values (snd (layer_call l1 t)) (snd (layer_call l2 t))) ->
  same_values s1 s2 ->
  same_run eq (call n self x s1) (call n self x s2).
Proof.
  intros Hdet Hs. apply call_alike; assumption.
Qed.

(** C8, as the code has it.  The constructor of [MySequential] checks
    nothing and never fails: whatever the arguments are, it returns a new
    container whose modules are the arguments in order.  A child that raises
    when it is called (one that is no block, for instance) is found only by
    a call: the children before it have run, the exception goes to the
    caller with the store as it then is, and no child after it is run. *)
Theorem construction_never_fails_errors_at_call :
  (forall args (s : Store),
     MySequential_init args s
     = Some (Ok (length s), s ++ [MySequential args])) /\
  (forall n self before bad after x y e (s s1 s2 : Store),
     s !! self = Some (MySequential (before ++ bad :: after)) ->
     MySequential_call (call n) before x s = Some (Ok y, s1) ->
     call n bad y s1 = Some (Raise e, s2) ->
     call (S n) self x s = Some (Raise e, s2)) /\
  (forall n bad v x (s : Store),
     s !! bad = Some (PyValue v) ->
     call (S n) bad x s = Some (Raise NotCallable, s)).
Proof.
  split; [|split].
  - intros args s. apply MySequential_init_spec.
  - intros n self before bad after x y e s s1 s2 Hself Hbefore Hbad.
    rewrite (call_MySequential _ _ _ _ _ Hself).
    rewrite MySequential_call_app. unfold bind. rewrite Hbefore.
    rewrite MySequential_call_cons. unfold bind. rewrite Hbad. reflexivity.
  - intros n bad v x s Hbad. rewrite call_S. unfold bind, deref.
    rewrite Hbad. reflexivity.
Qed.

End UnitClaims.

(** ** Constants and parameters *)

Section ParameterClaims.
Import F32 LazyLayers.

Lemma apply_all_keeps_constants {E : Engine} n calls (s s' : Store) r :
  apply_all n calls s = Some s' -> constants_of s' r = constants_of s r.
Proof.
  intros Hrun. apply (constants_of_related (fun _ _ => True)).
  eapply apply_all_keeps; eauto.
Qed.

Lemma keeps_weights_refl l : keeps_weights l l.
Proof. intros w Hw. exact Hw. Qed.

Lemma keeps_weights_trans a b c :
  keeps_weights a b -> keeps_weights b c -> keeps_weights a c.
Proof. intros Hab Hbc w Hw. apply Hbc, Hab, Hw. Qed.

(** A call of a layer reads the weights the layer has: only a layer that is
    not built gets weights. *)
Lemma lazy_call_keeps_weights l x : keeps_weights l (snd (lazy_call l x)).
Proof.
  destruct l as [|units use_relu initial [[kernel bias]|]]; cbn [lazy_call].
  - apply keeps_weights_refl.
  - apply keeps_weights_refl.
  - intros w Hw. discriminate Hw.
Qed.

(** C4, as the code has it.  Apply calls do not write a unit's constants:
    after any run of calls (on any units, with any inputs, whether they
    return or raise) every constant tensor of the store is the tensor it
    was, and the [rand_weight] of a [FixedHiddenMLP] is the tensor drawn
    when it was constructed.  The parameters live in the framework's layers,
    which the constructors make without an input width: a layer has no
    parameters until its first call.  Once a layer has its kernel and bias,
    no run of calls changes them. *)
Theorem apply_keeps_constants_and_built_parameters :
  (forall (E : Engine) n calls (s s' : Store),
     @apply_all E n calls s = Some s' ->
     (forall r, @constants_of E s' r = @constants_of E s r) /\
     (forall flatten_layer dense_layer drawn s0 self,
        @FixedHiddenMLP_init E flatten_layer dense_layer drawn s0
        = Some (Ok self, s) ->
        @constants_of E s' self = Some drawn)) /\
  (forall n calls (s s' : list (@Obj lazy_engine)),
     @apply_all lazy_engine n calls s = Some s' ->
     forall r w,
       @parameters_of lazy_engine s r = Some (Some w) ->
       @parameters_of lazy_engine s' r = Some (Some w)).
Proof.
  split.
  - intros E n calls s s' Hrun.
    split; [intros r; eapply apply_all_keeps_constants; eauto|].
    intros fl dl drawn s0 self Hinit.
    rewrite (apply_all_keeps_constants _ _ _ _ _ Hrun).
    rewrite FixedHiddenMLP_init_spec in Hinit. inversion Hinit; subst.
    unfold constants_of.
    replace (S (S (length s0))) with (length s0 + 2) by lia.
    rewrite lookup_app_r, Nat.add_comm, Nat.add_sub by lia. reflexivity.
  - intros n calls s s' Hrun r w.
    pose proof (@apply_all_keeps lazy_engine keeps_weights keeps_weights_refl
                  keeps_weights_trans lazy_call_keeps_weights n calls s s' Hrun)
      as Hf.
    unfold parameters_of.
    pose proof (proj1 (Forall2_lookup _ _ _) Hf r) as Hr.
    destruct Hr as [o o' Ho|]; [|discriminate].
    destruct o as [l| | | | |]; try discriminate.
    destruct o' as [l'| | | | |]; simpl in Ho; try discriminate.
    intros [= Hw]. f_equal. apply Ho, Hw.
Qed.

Lemma apply_keeps_constants_and_built_parameters_witness :
  FixedHiddenMLP_init (E:=lazy_engine) LazyFlatten
    (LazyDense 2 true quarters None) Examples.small_weight []
  = Some (Ok 2, new_store) /\
  apply_all (E:=lazy_engine) 6 [(2, Examples.x0); (2, Examples.x0)] new_store
  = Some built_store /\
  constants_of built_store 2 = Some Examples.small_weight /\
  apply_all (E:=lazy_engine) 6 [(2, Examples.x0); (2, Examples.x0)] built_store
  = Some built_store /\
  parameters_of (E:=lazy_engine) built_store 1
  = Some (Some ([[quarter; quarter]; [quarter; quarter]], [zero; zero])).
Proof.
  assert (Hinit : FixedHiddenMLP_init (E:=lazy_engine) LazyFlatten
                    (LazyDense 2 true quarters None) Examples.small_weight []
                  = Some (Ok 2, new_store)) by run_both.
  assert (Hfirst : apply_all (E:=lazy_engine) 6
                     [(2, Examples.x0); (2, Examples.x0)] new_store
                   = Some built_store) by run_both.
  assert (Hnext : apply_all (E:=lazy_engine) 6
                    [(2, Examples.x0); (2, Examples.x0)] built_store
                  = Some built_store) by run_both.
  destruct apply_keeps_constants_and_built_parameters as [Hc Hp].
  split; [exact Hinit|]. split; [exact Hfirst|]. split.
  - destruct (Hc lazy_engine 6 [(2, Examples.x0); (2, Examples.x0)] new_store
                built_store Hfirst) as [_ Hdrawn].
    exact (Hdrawn _ _ _ _ _ Hinit).
  - split; [exact Hnext|].
    apply (Hp 6 [(2, Examples.x0); (2, Examples.x0)] built_store built_store
             Hnext 1).
    run_both.
Defined.

(** C4, as the claim states it, fails for the parameters: the first call of
    a new [FixedHiddenMLP] makes the kernel and the bias of its dense layer,
    which had none. *)
Lemma first_call_creates_parameters :
  FixedHiddenMLP_init (E:=lazy_engine) LazyFlatten
    (LazyDense 2 true quarters None) Examples.small_weight []
  = Some (Ok 2, new_store) /\
  call (E:=lazy_engine) 6 2 Examples.x0 new_store
  = Some (Ok (T0 (S754_finite false 10485760 (-23))), built_store) /\
  parameters_of (E:=lazy_engine) new_store 1 = Some None /\
  parameters_of (E:=lazy_engine) built_store 1
  = Some (Some ([[quarter; quarter]; [quarter; quarter]], [zero; zero])) /\
  parameters_of (E:=lazy_engine) built_store 1
  <> parameters_of (E:=lazy_engine) new_store 1.
Proof.
  split; [run_both|]. split; [run_both|]. split; [run_both|].
  split; [run_both|]. intros H. discriminate H.
Qed.

End ParameterClaims.

(** ** The claims on the small stores *)

Section Witnesses.
Import F32 Examples.

Lemma container_apply_is_composition_witness :
  MySequential_init [0; 1] two_layers
  = Some (Ok 2, two_layers ++ [MySequential [0; 1]]) /\
  call 2 2 x0 (two_layers ++ [MySequential [0; 1]])
  = composition (call 1) [0; 1] x0 (two_layers ++ [MySequential [0; 1]]).
Proof.
  split; [run_both|].
  apply (container_apply_is_composition (E:=engine) 1 [0; 1] x0 two_layers).
  run_both.
Defined.

Lemma nesting_is_associative_witness :
  call 2 4 x0 nested_store
  = Some (Ok (T2 [[S754_finite false 8519680 (-18)]]), nested_store) /\
  exists n, call n 3 x0 nested_store
            = Some (Ok (T2 [[S754_finite false 8519680 (-18)]]), nested_store).
Proof.
  split; [run_both|].
  apply (nesting_is_associative (E:=engine) nested_store 3 2 4 [0] [0; 0] [1] x0);
    [run_both ..|].
  exists 2. run_both.
Defined.

Lemma layer_call32_keeps_layer l t : snd (layer_call32 l t) = l.
Proof.
  destruct l as [|kernel bias use_relu]; simpl.
  - destruct t; reflexivity.
  - destruct (matmul32 t (T2 kernel)) as [[v|v|p]|e]; try reflexivity.
    destruct (length bias =? width kernel)%nat; reflexivity.
Qed.

Lemma counting_layers_deterministic (l1 l2 : @Layer counting_engine) t :
  same_layer_values l1 l2 ->
  fst (layer_call l1 t) = fst (layer_call l2 t) /\
  same_layer_values (snd (layer_call l1 t)) (snd (layer_call l2 t)).
Proof.
  unfold same_layer_values. destruct l1 as [l1 c1], l2 as [l2 c2]. simpl.
  intros ->. destruct (layer_call32 l2 t) as [y l']. split; reflexivity.
Qed.

Lemma apply_is_deterministic_witness :
  same_values (counted_store 0) (counted_store 7) /\
  same_run eq (call (E:=counting_engine) 5 2 x0 (counted_store 0))
              (call (E:=counting_engine) 5 2 x0 (counted_store 7)).
Proof.
  assert (Hs : same_values (counted_store 0) (counted_store 7))
    by (repeat constructor).
  split; [exact Hs|].
  apply (apply_is_deterministic (E:=counting_engine) 5 2 x0
           (counted_store 0) (counted_store 7)
           counting_layers_deterministic Hs).
Defined.

Lemma construction_never_fails_errors_at_call_witness :
  MySequential_init [0; 1; 0] int_store
  = Some (Ok 2, int_store ++ [MySequential [0; 1; 0]]) /\
  call 2 2 x0 (int_store ++ [MySequential [0; 1; 0]])
  = Some (Raise NotCallable, int_store ++ [MySequential [0; 1; 0]]).
Proof.
  destruct (construction_never_fails_errors_at_call (E:=engine)) as (Hinit & Hcall & Hbad).
  split; [apply Hinit|].
  apply (Hcall 1 2 [0] 1 [0] x0
           (T2 [[S754_finite false 8388608 (-22); S754_finite false 8388608 (-21)]])
           NotCallable
           (int_store ++ [MySequential [0; 1; 0]])
           (int_store ++ [MySequential [0; 1; 0]])).
  - run_both.
  - run_both.
  - apply Hbad with (v := 7%Z). run_both.
Defined.

(** C8, as the claim states it, fails: a container that is its own child is
    accepted by the constructor, which returns a new container and raises
    no [ConstructionError]; so is a child that is the integer 7. *)
Lemma cyclic_child_is_accepted :
  cyclic self_store 0 /\
  MySequential_init [0] self_store
  = Some (Ok 1, self_store ++ [MySequential [0]]) /\
  ~ (exists s', MySequential_init [0] self_store
                = Some (Raise ConstructionError, s')) /\
  MySequential_init [1] int_store
  = Some (Ok 2, int_store ++ [MySequential [1]]).
Proof.
  split; [|split; [|split]].
  - apply (reaches_child self_store 0 (MySequential [0]) 0).
    + run_both.
    + left; reflexivity.
  - run_both.
  - intros [s' Hs'].
    assert (Hok : MySequential_init [0] self_store
                  = Some (Ok 1, self_store ++ [MySequential [0]])) by run_both.
    congruence.
  - run_both.
Qed.

End Witnesses.

(** ** Devices *)

Section DeviceClaims.
Import F32 Gpus.

(** Decimal digits name an integer: [str] is injective. *)
Lemma str_inj i j : str i = str j -> i = j.
Proof.
  unfold str. intros Hs.
  assert (Hnil : forall k, Z.to_int k <> Decimal.Pos Decimal.Nil /\
                           Z.to_int k <> Decimal.Neg Decimal.Nil).
  { intros [|p|p]; simpl; split; try discriminate;
      intros [= Hp]; exact (DecimalPos.Unsigned.to_uint_nonnil p Hp). }
  apply DecimalZ.to_int_inj.
  destruct (Hnil i) as [Hi1 Hi2], (Hnil j) as [Hj1 Hj2].
  pose proof (NilZero.isi _ Hi1 Hi2) as Ei.
  pose proof (NilZero.isi _ Hj1 Hj2) as Ej.
  rewrite Hs in Ei. congruence.
Qed.

Lemma gpu_inj i j : gpu i = gpu j -> i = j.
Proof.
  unfold gpu. intros [= H]. apply str_inj, H.
Qed.

Lemma gpu_is_not_cpu i : gpu i <> cpu0.
Proof. unfold gpu, cpu0. simpl. intros [= H]. Qed.

Lemma try_gpu_cases gpus i :
  try_gpu gpus i
  = if (i + 1 <=? Z.of_nat (length gpus))%Z then gpu i else cpu0.
Proof.
  unfold try_gpu, gpu, cpu0. rewrite Z.geb_leb. reflexivity.
Qed.

(** C9.  For an index [i >= 0], [try_gpu(i)] returns a device context
    (it has no failing path): the context of GPU [i] exactly when at least
    [i + 1] GPUs are listed, that is when the list of GPUs has an entry at
    [i], and the context of CPU 0 exactly when it has none. *)
Theorem try_gpu_is_gpu_iff_listed gpus i :
  (0 <= i)%Z ->
  (try_gpu gpus i = gpu i <-> (i + 1 <= Z.of_nat (length gpus))%Z) /\
  (try_gpu gpus i = gpu i <-> is_Some (gpus !! Z.to_nat i)) /\
  (try_gpu gpus i = cpu0 <-> gpus !! Z.to_nat i = None).
Proof.
  intros Hi. rewrite try_gpu_cases.
  rewrite lookup_lt_is_Some, lookup_ge_None.
  destruct (Z.leb_spec (i + 1) (Z.of_nat (length gpus))) as [Hle|Hgt].
  - split; [|split]; split; intros H; try reflexivity; try lia.
    + exfalso. exact (gpu_is_not_cpu i H).
  - split; [|split]; split; intros H; try reflexivity; try lia.
    + exfalso. exact (gpu_is_not_cpu i (eq_sym H)).
    + exfalso. exact (gpu_is_not_cpu i (eq_sym H)).
Qed.

Lemma try_gpu_is_gpu_iff_listed_witness :
  try_gpu two_gpus 1 = gpu 1 /\ try_gpu two_gpus 3 = cpu0.
Proof.
  split.
  - destruct (try_gpu_is_gpu_iff_listed two_gpus 1) as (H & _ & _); [lia|].
    apply H. simpl. lia.
  - destruct (try_gpu_is_gpu_iff_listed two_gpus 3) as (_ & _ & H); [lia|].
    apply H. reflexivity.
Defined.

Lemma map_gpu_seq_NoDup n k :
  NoDup (map (fun i => gpu (Z.of_nat i)) (seq k n)).
Proof.
  apply NoDup_fmap_2_strong; [|apply NoDup_seq].
  intros i j _ _ H. apply gpu_inj in H. lia.
Qed.

Lemma try_all_gpus_cases gpus :
  try_all_gpus gpus
  = match gpus with
    | [] => [cpu0]
    | _ :: _ => map (fun i => gpu (Z.of_nat i)) (seq 0 (length gpus))
    end.
Proof. destruct gpus; reflexivity. Qed.

(** C10.  [try_all_gpus()] never returns the empty list.  With [n >= 1]
    GPUs listed it returns [n] device contexts, the one at position [i]
    being that of GPU [i], all different; with no GPU listed it returns the
    context of CPU 0 alone. *)
Theorem try_all_gpus_lists_every_gpu gpus :
  try_all_gpus gpus <> [] /\
  (1 <= length gpus ->
     length (try_all_gpus gpus) = length gpus /\
     (forall i, i < length gpus ->
        try_all_gpus gpus !! i = Some (gpu (Z.of_nat i))) /\
     NoDup (try_all_gpus gpus)) /\
  (length gpus = 0 -> try_all_gpus gpus = [cpu0]).
Proof.
  rewrite try_all_gpus_cases. destruct gpus as [|g gpus].
  - split; [discriminate|]. split; [simpl; lia|reflexivity].
  - split; [discriminate|]. split; [|discriminate].
    intros _. split; [|split].
    + rewrite length_map, length_seq. reflexivity.
    + intros i Hi. rewrite list_lookup_fmap, lookup_seq_lt by exact Hi.
      reflexivity.
    + apply map_gpu_seq_NoDup.
Qed.

Lemma try_all_gpus_lists_every_gpu_witness :
  try_all_gpus two_gpus = [gpu 0; gpu 1] /\
  NoDup (try_all_gpus two_gpus) /\
  try_all_gpus [] = [cpu0].
Proof.
  split; [reflexivity|]. split.
  - destruct (try_all_gpus_lists_every_gpu two_gpus) as (_ & H & _).
    apply H. simpl. lia.
  - destruct (try_all_gpus_lists_every_gpu []) as (_ & _ & H).
    apply H. reflexivity.
Defined.







End DeviceClaims.

(** ** Arithmetic of the binary32 engine *)

Section Float32Facts.
Import F32.

Lemma fexp_eq z : fexp prec emax z = Z.max (z - 24) (-149).
Proof. reflexivity. Qed.

Lemma digits2_bounds m :
  (2 ^ (Z.pos (digits2_pos m) - 1) <= Z.pos m < 2 ^ Z.pos (digits2_pos m))%Z.
Proof.
  induction m as [m IH|m IH|]; simpl digits2_pos;
    [rewrite Pos2Z.inj_succ ..|simpl; lia].
  - replace (Z.succ (Z.pos (digits2_pos m)) - 1)%Z
      with (Z.succ (Z.pos (digits2_pos m) - 1)) by lia.
    rewrite !Z.pow_succ_r by lia. lia.
  - replace (Z.succ (Z.pos (digits2_pos m)) - 1)%Z
      with (Z.succ (Z.pos (digits2_pos m) - 1)) by lia.
    rewrite !Z.pow_succ_r by lia. lia.
Qed.

Lemma digits_le m n :
  (0 <= n)%Z ->
  (Z.pos (digits2_pos m) <= n)%Z <-> (Z.pos m < 2 ^ n)%Z.
Proof.
  intros Hn. pose proof (digits2_bounds m) as [Hlo Hhi]. split; intros H.
  - eapply Z.lt_le_trans; [exact Hhi|]. apply Z.pow_le_mono_r; lia.
  - destruct (Z.le_gt_cases (Z.pos (digits2_pos m)) n) as [Hle|Hgt]; [exact Hle|].
    exfalso.
    assert (2 ^ n <= 2 ^ (Z.pos (digits2_pos m) - 1))%Z
      by (apply Z.pow_le_mono_r; lia).
    lia.
Qed.

Lemma div_eucl_eq a b : Z.div_eucl a b = ((a / b)%Z, (a mod b)%Z).
Proof. unfold Z.div, Z.modulo. destruct (Z.div_eucl a b); reflexivity. Qed.

Lemma bounded_spec m e :
  bounded prec emax m e = true <->
  (Z.max (Z.pos (digits2_pos m) + e - 24) (-149) = e /\ e <= 104)%Z.
Proof.
  unfold bounded, canonical_mantissa. rewrite andb_true_iff, Z.eqb_eq, Z.leb_le, fexp_eq.
  reflexivity.
Qed.

Lemma core_shape m e :
  SFdiv_core_binary prec emax (Z.pos m) e 8388608 (-22)
  = let e' := Z.min (Z.max (Z.pos (digits2_pos m) + e - 26) (-149)) (e + 22) in
    let s := (e + 22 - e')%Z in
    let m' := match s with
              | Zpos _ => Z.shiftl (Z.pos m) s
              | Z0 => Z.pos m
              | Zneg _ => Z0
              end in
    ((m' / 8388608)%Z, e', new_location 8388608 (m' mod 8388608)).
Proof.
  unfold SFdiv_core_binary. rewrite div_eucl_eq.
  change (Zdigits2 8388608) with 24%Z.
  change (Zdigits2 (Z.pos m)) with (Z.pos (digits2_pos m)).
  rewrite fexp_eq.
  replace (Z.pos (digits2_pos m) + e - (24 + -22) - 24)%Z
    with (Z.pos (digits2_pos m) + e - 26)%Z by lia.
  replace (e - -22)%Z with (e + 22)%Z by lia.
  reflexivity.
Qed.

Lemma core_normal m e :
  Z.pos (digits2_pos m) = 24%Z -> (-147 <= e)%Z ->
  SFdiv_core_binary prec emax (Z.pos m) e 8388608 (-22)
  = (Z.pos m~0, (e - 2)%Z, loc_Exact).
Proof.
  intros Hd He. rewrite core_shape. cbv zeta. rewrite Hd.
  replace (Z.min (Z.max (24 + e - 26) (-149)) (e + 22)) with (e - 2)%Z by lia.
  replace (e + 22 - (e - 2))%Z with 24%Z by lia.
  rewrite Z.shiftl_mul_pow2 by lia.
  change (2 ^ 24)%Z with (2 * 8388608)%Z.
  rewrite Z.mul_assoc, Z.div_mul, Z.mod_mul by lia.
  rewrite Z.mul_comm. reflexivity.
Qed.

Lemma core_low_normal m :
  Z.pos (digits2_pos m) = 24%Z ->
  SFdiv_core_binary prec emax (Z.pos m) (-148) 8388608 (-22)
  = (Z.pos m, (-149)%Z, loc_Exact).
Proof.
  intros Hd. rewrite core_shape. cbv zeta. rewrite Hd.
  change (Z.min (Z.max (24 + -148 - 26) (-149)) (-148 + 22)) with (-149)%Z.
  change (-148 + 22 - -149)%Z with 23%Z.
  rewrite Z.shiftl_mul_pow2 by lia.
  change (2 ^ 23)%Z with 8388608%Z.
  rewrite Z.div_mul, Z.mod_mul by lia. reflexivity.
Qed.

Lemma core_subnormal_shape m :
  (Z.pos (digits2_pos m) <= 24)%Z ->
  SFdiv_core_binary prec emax (Z.pos m) (-149) 8388608 (-22)
  = ((Z.pos m * 4194304 / 8388608)%Z, (-149)%Z,
     new_location 8388608 (Z.pos m * 4194304 mod 8388608)).
Proof.
  intros Hd. rewrite core_shape. cbv zeta.
  replace (Z.min (Z.max (Z.pos (digits2_pos m) + -149 - 26) (-149)) (-149 + 22))
    with (-149)%Z by lia.
  change (-149 + 22 - -149)%Z with 22%Z.
  rewrite Z.shiftl_mul_pow2 by lia.
  change (2 ^ 22)%Z with 4194304%Z. reflexivity.
Qed.

Lemma core_subnormal_one :
  SFdiv_core_binary prec emax 1 (-149) 8388608 (-22)
  = (0%Z, (-149)%Z, loc_Inexact Eq).
Proof. reflexivity. Qed.

Lemma core_subnormal_even p :
  (Z.pos (digits2_pos p~0) <= 24)%Z ->
  SFdiv_core_binary prec emax (Z.pos p~0) (-149) 8388608 (-22)
  = (Z.pos p, (-149)%Z, loc_Exact).
Proof.
  intros Hd. rewrite core_subnormal_shape by exact Hd.
  replace (Z.pos p~0 * 4194304)%Z with (Z.pos p * 8388608)%Z by lia.
  rewrite Z.div_mul, Z.mod_mul by lia. reflexivity.
Qed.

Lemma core_subnormal_odd p :
  (Z.pos (digits2_pos p~1) <= 24)%Z ->
  SFdiv_core_binary prec emax (Z.pos p~1) (-149) 8388608 (-22)
  = (Z.pos p, (-149)%Z, loc_Inexact Eq).
Proof.
  intros Hd. rewrite core_subnormal_shape by exact Hd.
  replace (Z.pos p~1 * 4194304 / 8388608)%Z with (Z.pos p)
    by (apply Z.div_unique with (r := 4194304%Z); lia).
  replace (Z.pos p~1 * 4194304 mod 8388608)%Z with 4194304%Z
    by (apply Z.mod_unique with (q := Z.pos p); lia).
  reflexivity.
Qed.

Lemma shr_fexp_noshift m e l :
  fexp prec emax (Zdigits2 m + e) = e ->
  shr_fexp prec emax m e l = (shr_record_of_loc m l, e).
Proof. intros H. unfold shr_fexp. rewrite H, Z.sub_diag. reflexivity. Qed.

Lemma shr_fexp_one m e l :
  fexp prec emax (Zdigits2 m + e) = (e + 1)%Z ->
  shr_fexp prec emax m e l = (shr_1 (shr_record_of_loc m l), (e + 1)%Z).
Proof.
  intros H. unfold shr_fexp. rewrite H.
  replace (e + 1 - e)%Z with 1%Z by lia. reflexivity.
Qed.

(** Rounding a number of the format gives the number. *)
Lemma round_canonical s m e :
  bounded prec emax m e = true ->
  binary_round_aux prec emax s (Z.pos m) e loc_Exact = S754_finite s m e.
Proof.
  intros Hb. apply bounded_spec in Hb as [Hc He].
  assert (Hf : fexp prec emax (Zdigits2 (Z.pos m) + e) = e)
    by (rewrite fexp_eq; simpl Zdigits2; lia).
  unfold binary_round_aux. rewrite (shr_fexp_noshift _ _ _ Hf). simpl.
  rewrite (shr_fexp_noshift _ _ _ Hf). simpl.
  replace (e <=? emax - prec)%Z with true; [reflexivity|].
  symmetry. apply Z.leb_le. unfold emax, prec. lia.
Qed.

Lemma round_double s m e :
  Z.pos (digits2_pos m) = 24%Z -> (-147 <= e <= 104)%Z ->
  binary_round_aux prec emax s (Z.pos m~0) (e - 2) loc_Exact
  = S754_finite s m (e - 1).
Proof.
  intros Hd He.
  assert (H1 : fexp prec emax (Zdigits2 (Z.pos m~0) + (e - 2)) = (e - 2 + 1)%Z).
  { rewrite fexp_eq. simpl Zdigits2. rewrite Pos2Z.inj_succ, Hd. lia. }
  assert (H2 : fexp prec emax (Zdigits2 (Z.pos m) + (e - 2 + 1)) = (e - 2 + 1)%Z).
  { rewrite fexp_eq. simpl Zdigits2. rewrite Hd. lia. }
  unfold binary_round_aux. rewrite (shr_fexp_one _ _ _ H1). simpl.
  rewrite (shr_fexp_noshift _ _ _ H2). simpl.
  replace (e - 2 + 1 <=? emax - prec)%Z with true
    by (symmetry; apply Z.leb_le; unfold emax, prec; lia).
  f_equal. lia.
Qed.

Lemma bounded_low q :
  (Z.pos (digits2_pos q) <= 24)%Z -> bounded prec emax q (-149) = true.
Proof. intros H. apply bounded_spec. lia. Qed.

(** Rounding a tie at the lowest exponent: to the even neighbour. *)
Lemma round_low_tie s p :
  (Z.pos (digits2_pos p) <= 23)%Z ->
  exists p',
    binary_round_aux prec emax s (Z.pos p) (-149) (loc_Inexact Eq)
    = S754_finite s p' (-149) /\
    (Z.pos p' <= Z.pos p + 1)%Z /\ (Z.pos (digits2_pos p') <= 24)%Z.
Proof.
  intros Hd.
  assert (Hf : fexp prec emax (Zdigits2 (Z.pos p) + -149) = (-149)%Z)
    by (rewrite fexp_eq; simpl Zdigits2; lia).
  assert (Hp : (Z.pos p < 2 ^ 23)%Z) by (apply digits_le; lia).
  unfold binary_round_aux. rewrite (shr_fexp_noshift _ _ _ Hf).
  cbn [shr_record_of_loc loc_of_shr_record shr_m round_nearest_even].
  assert (Hr : exists p', (if Z.even (Z.pos p) then Z.pos p else (Z.pos p + 1)%Z)
                          = Z.pos p' /\ (Z.pos p' <= Z.pos p + 1)%Z).
  { destruct (Z.even (Z.pos p)).
    - exists p. split; [reflexivity|lia].
    - exists (p + 1)%positive. split; [reflexivity|lia]. }
  destruct Hr as (p' & -> & Hle).
  assert (Hd' : (Z.pos (digits2_pos p') <= 24)%Z).
  { apply digits_le; [lia|]. change (2 ^ 24)%Z with (2 * 2 ^ 23)%Z. lia. }
  assert (Hf' : fexp prec emax (Zdigits2 (Z.pos p') + -149) = (-149)%Z)
    by (rewrite fexp_eq; simpl Zdigits2; lia).
  rewrite (shr_fexp_noshift _ _ _ Hf'). simpl.
  exists p'. auto.
Qed.

(** Half of a finite number of the format is zero or a finite number of the
    format of smaller weight. *)
Lemma half_finite s m e :
  bounded prec emax m e = true ->
  match div (S754_finite s m e) (of_Z 2) with
  | S754_zero _ => True
  | S754_finite s' m' e' =>
      bounded prec emax m' e' = true /\
      (weight (S754_finite s' m' e') < weight (S754_finite s m e))%nat
  | _ => False
  end.
Proof.
  intros Hb. pose proof Hb as Hb'. apply bounded_spec in Hb' as [Hc He].
  change (of_Z 2) with (S754_finite false 8388608 (-22)).
  unfold div, SFdiv.
  destruct (Z.eq_dec e (-149)%Z) as [->|Hn149].
  - (* the lowest exponent: the mantissa is halved and rounded *)
    assert (Hd : (Z.pos (digits2_pos m) <= 24)%Z) by lia.
    destruct m as [p|p|].
    + rewrite core_subnormal_odd by exact Hd.
      simpl digits2_pos in Hd. rewrite Pos2Z.inj_succ in Hd.
      destruct (round_low_tie (xorb s false) p) as (p' & -> & Hle & Hd');
        [lia|].
      split; [apply bounded_low, Hd'|].
      assert (Hmono : (Z.pos (digits2_pos (Pos.pred_double p'))
                       <= Z.pos (digits2_pos p~1))%Z).
      { apply digits_le; [lia|].
        pose proof (digits2_bounds p~1) as [_ Hhi]. lia. }
      simpl weight. simpl digits2_pos in *. lia.
    + rewrite core_subnormal_even by exact Hd.
      simpl digits2_pos in Hd. rewrite Pos2Z.inj_succ in Hd.
      rewrite round_canonical by (apply bounded_low; lia).
      split; [apply bounded_low; lia|].
      simpl weight. simpl digits2_pos. lia.
    + rewrite core_subnormal_one. simpl. exact I.
  - assert (Hd : Z.pos (digits2_pos m) = 24%Z) by lia.
    destruct (Z.eq_dec e (-148)%Z) as [->|Hn148].
    + rewrite core_low_normal by exact Hd.
      rewrite round_canonical.
      * split; [|simpl weight; lia]. apply bounded_spec. lia.
      * apply bounded_spec. lia.
    + rewrite core_normal by (try exact Hd; lia).
      rewrite round_double by (try exact Hd; lia).
      split; [apply bounded_spec; lia|simpl weight; lia].
Qed.

(** *** Signs *)

Lemma shr_1_nonneg mrs : (0 <= shr_m mrs)%Z -> (0 <= shr_m (shr_1 mrs))%Z.
Proof.
  destruct mrs as [m r t]. destruct m as [|p|p]; simpl; try lia.
  - destruct p; simpl; lia.
Qed.

Lemma iter_shr_1_nonneg n : forall mrs,
  (0 <= shr_m mrs)%Z -> (0 <= shr_m (SpecFloat.iter_pos shr_1 n mrs))%Z.
Proof.
  induction n as [n IH|n IH|]; intros mrs H; simpl.
  - apply IH, IH, shr_1_nonneg, H.
  - apply IH, IH, H.
  - apply shr_1_nonneg, H.
Qed.

Lemma shr_fexp_nonneg m e l :
  (0 <= m)%Z -> (0 <= shr_m (fst (shr_fexp prec emax m e l)))%Z.
Proof.
  intros Hm. unfold shr_fexp, shr.
  assert (H0 : (0 <= shr_m (shr_record_of_loc m l))%Z)
    by (destruct l as [|[]]; simpl; exact Hm).
  destruct (fexp prec emax (Zdigits2 m + e) - e)%Z; simpl; auto.
  apply iter_shr_1_nonneg, H0.
Qed.

Lemma round_nearest_even_nonneg m l :
  (0 <= m)%Z -> (0 <= round_nearest_even m l)%Z.
Proof.
  intros Hm. destruct l as [|[]]; simpl; try lia.
  destruct (Z.even m); lia.
Qed.

(** Rounding a mantissa that is not negative, with the positive sign, gives
    a number that is not negative and no NaN. *)
Lemma round_nonneg m e l :
  (0 <= m)%Z -> is_nonneg (binary_round_aux prec emax false m e l) = true.
Proof.
  intros Hm. unfold binary_round_aux.
  pose proof (shr_fexp_nonneg m e l Hm) as H1.
  destruct (shr_fexp prec emax m e l) as [mrs1 e1]. simpl in H1.
  pose proof (shr_fexp_nonneg _ e1 loc_Exact
                (round_nearest_even_nonneg _ (loc_of_shr_record mrs1) H1)) as H2.
  destruct (shr_fexp prec emax _ e1 loc_Exact) as [mrs2 e2]. simpl in H2.
  destruct (shr_m mrs2) as [|p|p]; [reflexivity| |lia].
  destruct (e2 <=? emax - prec)%Z; reflexivity.
Qed.

Lemma mul_self_nonneg v : v <> S754_nan -> is_nonneg (mul v v) = true.
Proof.
  destruct v as [s|s| |s m e]; intros Hv; simpl.
  - reflexivity.
  - destruct s; reflexivity.
  - congruence.
  - rewrite xorb_nilpotent. apply round_nonneg. lia.
Qed.

Lemma add_nonneg a b :
  is_nonneg a = true -> is_nonneg b = true -> is_nonneg (add a b) = true.
Proof.
  destruct a as [sa|[]| |[] ma ea], b as [sb|[]| |[] mb eb];
    simpl; try discriminate; try reflexivity; intros _ _.
  - destruct sa, sb; reflexivity.
  - unfold binary_normalize, binary_round.
    destruct (shl_align _ _ _) as [mz ez]. apply round_nonneg. lia.
Qed.

Lemma sqrt_nonneg a : is_nonneg a = true -> is_nonneg (sqrt a) = true.
Proof.
  destruct a as [sa|[]| |[] ma ea]; simpl; try discriminate; try reflexivity.
  intros _. unfold SFsqrt_core_binary.
  match goal with |- context [Z.sqrtrem ?n] =>
    pose proof (Z.sqrtrem_spec n) as Hq; destruct (Z.sqrtrem n) as [q r]
  end.
  apply round_nonneg.
  match type of Hq with (0 <= ?n)%Z -> _ =>
    assert (Hn : (0 <= n)%Z) end.
  { destruct (ea - 2 * _)%Z; try lia. apply Z.shiftl_nonneg. lia. }
  specialize (Hq Hn). lia.
Qed.

(** *** The norm *)

Lemma entries_tmap f t : entries (tmap f t) = map f (entries t).
Proof.
  destruct t as [v|v|rows]; simpl; try reflexivity.
  induction rows as [|r rows IH]; simpl; [reflexivity|].
  rewrite map_app, IH. reflexivity.
Qed.

Lemma finite_not_nan v : finite v = true -> v <> S754_nan.
Proof. destruct v; simpl; congruence. Qed.

Lemma sum_from_nonneg l : forall acc,
  is_nonneg acc = true -> Forall (fun v => is_nonneg v = true) l ->
  is_nonneg (fold_left add l acc) = true.
Proof.
  induction l as [|v l IH]; intros acc Ha Hl; simpl; [exact Ha|].
  inversion Hl; subst. apply IH; [apply add_nonneg|]; assumption.
Qed.

(** The norm of a tensor with finite entries is no NaN and not negative. *)
Lemma norm_nonneg t : all_finite t = true -> is_nonneg (norm32 t) = true.
Proof.
  unfold all_finite, norm32, sum. intros Hf.
  apply sqrt_nonneg, sum_from_nonneg; [reflexivity|].
  rewrite List.Forall_forall. intros sq Hsq. apply in_map_iff in Hsq as (v & <- & Hv).
  apply mul_self_nonneg, finite_not_nan.
  rewrite forallb_forall in Hf. apply Hf, Hv.
Qed.

Lemma sum_of_zeros l :
  Forall (fun v => v = zero) l -> fold_left add l zero = zero.
Proof.
  induction l as [|v l IH]; intros Hl; simpl; [reflexivity|].
  inversion Hl; subst. apply IH. assumption.
Qed.

(** The norm of a tensor of zeros is [+0]. *)
Lemma norm_of_zeros t :
  forallb is_zero (entries t) = true -> norm32 t = zero.
Proof.
  unfold norm32, sum. intros Hz. rewrite sum_of_zeros; [reflexivity|].
  rewrite List.Forall_forall. intros sq Hsq. apply in_map_iff in Hsq as (v & <- & Hv).
  rewrite forallb_forall in Hz. specialize (Hz v Hv).
  destruct v as [[]| | |]; try discriminate; reflexivity.
Qed.

(** Not above 1 means at most 1, for a number that is no NaN. *)
Lemma not_gt_one_le_one x :
  is_nonneg x = true -> ltb one x = false -> leb x one = true.
Proof.
  change one with (S754_finite false 8388608 (-23)).
  unfold ltb, leb, SFltb, SFleb.
  destruct x as [s|[]| |[] m e]; cbn [is_nonneg SFcompare];
    try discriminate; try reflexivity.
  intros _. rewrite !Pos.compare_cont_spec.
  rewrite (Z.compare_antisym e (-23)), (Pos.compare_antisym m 8388608).
  destruct (e ?= -23)%Z; cbn [CompOpp]; try discriminate; try reflexivity.
  destruct (m ?= 8388608)%positive; cbn [CompOpp Pos.switch_Eq];
    try discriminate; try reflexivity.
Qed.

(** *** Halving a tensor *)

(** Halving a finite number takes one off its weight. *)
Lemma half_entry v :
  finite v = true ->
  finite (div v (of_Z 2)) = true /\
  (weight (div v (of_Z 2)) <= pred (weight v))%nat.
Proof.
  destruct v as [s|s| |s m e]; intros Hv; try discriminate Hv.
  - change (of_Z 2) with (S754_finite false 8388608 (-22)).
    unfold div. cbn [SFdiv finite weight]. split; [reflexivity|lia].
  - pose proof (half_finite s m e Hv) as Hh.
    destruct (div (S754_finite s m e) (of_Z 2)) as [s'|s'| |s' m' e'];
      try contradiction.
    + split; [reflexivity|cbn [weight]; lia].
    + destruct Hh as [Hb Hw]. split; [exact Hb|lia].
Qed.

(** A finite number weighs at most 278, and nothing only when it is zero. *)
Lemma weight_bound v : finite v = true -> (weight v <= 278)%nat.
Proof.
  destruct v as [s|s| |s m e]; simpl; try discriminate; try lia.
  intros Hb. apply bounded_spec in Hb as [Hc He].
  assert (Hd : (Z.pos (digits2_pos m) <= 24)%Z) by lia.
  assert (Hp : (Z.pos (digits2_pos (Pos.pred_double m)) <= 25)%Z).
  { apply digits_le; [lia|].
    assert (Z.pos m < 2 ^ 24)%Z by (apply digits_le; lia).
    change (2 ^ 25)%Z with (2 * 2 ^ 24)%Z. lia. }
  lia.
Qed.

Lemma finite_weight_zero v :
  finite v = true -> weight v = 0%nat -> is_zero v = true.
Proof.
  destruct v as [s|s| |s m e]; simpl; try discriminate; try reflexivity.
  intros _ Hw. lia.
Qed.

Lemma halve_entries l :
  forallb finite l = true ->
  forallb finite (map (fun v => div v (of_Z 2)) l) = true /\
  (fold_right (fun v acc => Nat.max (weight v) acc) 0
     (map (fun v => div v (of_Z 2)) l)
   <= pred (fold_right (fun v acc => Nat.max (weight v) acc) 0 l))%nat.
Proof.
  induction l as [|v l IH]; cbn [map forallb fold_right];
    [intros _; split; [reflexivity|lia]|].
  rewrite andb_true_iff. intros [Hv Hl].
  destruct (half_entry v Hv) as (Hf & Hle).
  destruct (IH Hl) as (Hf' & Hle').
  rewrite Hf, Hf'. split; [reflexivity|lia].
Qed.

Lemma halve_tensor t :
  all_finite t = true ->
  all_finite (div_scalar t 2) = true /\
  (height (div_scalar t 2) <= pred (height t))%nat.
Proof.
  unfold all_finite, height.
  change (@div_scalar engine t 2) with (tmap (fun v => div v (of_Z 2)) t).
  rewrite entries_tmap. apply halve_entries.
Qed.

Lemma height_bound_entries l :
  forallb finite l = true ->
  (fold_right (fun v acc => Nat.max (weight v) acc) 0 l <= 278)%nat.
Proof.
  induction l as [|v l IH]; cbn [forallb fold_right]; [lia|].
  rewrite andb_true_iff. intros [Hv Hl].
  pose proof (weight_bound v Hv). specialize (IH Hl). lia.
Qed.

Lemma height_bound t : all_finite t = true -> (height t <= 278)%nat.
Proof. apply height_bound_entries. Qed.

Lemma flat_entries l :
  forallb finite l = true ->
  fold_right (fun v acc => Nat.max (weight v) acc) 0 l = 0%nat ->
  forallb is_zero l = true.
Proof.
  induction l as [|v l IH]; cbn [forallb fold_right]; [reflexivity|].
  rewrite andb_true_iff. intros [Hv Hl] Hw.
  rewrite (finite_weight_zero v Hv) by lia. apply IH; [exact Hl|lia].
Qed.

(** A tensor of height 0 holds zeros only: the loop is left. *)
Lemma flat_leaves t :
  all_finite t = true -> height t = 0%nat ->
  gt_scalar (norm t) 1 = false.
Proof.
  intros Hf Hw.
  change (@gt_scalar engine (@norm engine t) 1) with (ltb (of_Z 1) (norm32 t)).
  rewrite norm_of_zeros; [reflexivity|].
  apply flat_entries; assumption.
Qed.

(** The loop is left after at most [height x] halvings, on a tensor with
    finite entries whose norm is not above 1. *)
Lemma halve_while_terminates W : forall x,
  all_finite x = true -> (height x <= W)%nat ->
  exists k,
    (k <= W)%nat /\
    all_finite (halved k x) = true /\
    gt_scalar (norm (halved k x)) 1 = false /\
    forall n, (k < n)%nat -> halve_while n x = Some (halved k x).
Proof.
  induction W as [|W IH]; intros x Hf Hw.
  - exists 0%nat. split; [lia|]. split; [exact Hf|].
    assert (Hg : @gt_scalar engine (@norm engine x) 1 = false)
      by (apply flat_leaves; [exact Hf|lia]).
    split; [exact Hg|].
    intros [|n] Hn; [lia|]. cbn [halve_while]. rewrite Hg. reflexivity.
  - destruct (@gt_scalar engine (@norm engine x) 1) eqn:Hg.
    + destruct (halve_tensor x Hf) as (Hf' & Hle).
      destruct (IH (@div_scalar engine x 2) Hf') as (k & Hk & Hfk & Hgk & Hrun); [lia|].
      exists (S k). unfold halved in *. rewrite !Nat.iter_succ_r.
      split; [lia|]. split; [exact Hfk|]. split; [exact Hgk|].
      intros [|n] Hn; [lia|]. cbn [halve_while]. rewrite Hg.
      apply Hrun. lia.
    + exists 0%nat. split; [lia|]. split; [exact Hf|]. split; [exact Hg|].
      intros [|n] Hn; [lia|]. cbn [halve_while]. rewrite Hg. reflexivity.
Qed.

Lemma call_FixedHiddenMLP {E : Engine} n self flatten w dense x (s : Store) :
  s !! self = Some (FixedHiddenMLP flatten w dense) ->
  call (S n) self x s = FixedHiddenMLP_call (call n) n self flatten x s.
Proof.
  intros Hs. rewrite call_S. unfold bind at 1, deref. rewrite Hs. reflexivity.
Qed.

(** C6, as the code has it.  Let [x] be the tensor the statements before the
    loop produce.  When every entry of [x] is a finite number, the call
    ends: the loop is left after some [k] halvings, [k] at most 278; the
    tensor it is left with has finite entries and a norm that is at most 1;
    and the call returns the sum of its entries, at every fuel above [k]
    that suffices for the statements before the loop. *)
Theorem halving_loop_terminates n self flatten w dense inputs x
    (s s' : Store) :
  s !! self = Some (FixedHiddenMLP flatten w dense) ->
  FixedHiddenMLP_hidden (call n) self flatten inputs s = Some (Ok x, s') ->
  all_finite x = true ->
  exists k,
    (k <= 278)%nat /\
    all_finite (halved k x) = true /\
    leb (norm32 (halved k x)) one = true /\
    forall m, (n <= m)%nat -> (k < m)%nat ->
      call (S m) self inputs s
      = Some (Ok (T0 (sum (entries (halved k x)))), s').
Proof.
  intros Hself Hhidden Hfin.
  destruct (halve_while_terminates 278 x Hfin (height_bound x Hfin))
    as (k & Hk & Hfk & Hgk & Hrun).
  exists k. split; [exact Hk|]. split; [exact Hfk|]. split.
  - apply not_gt_one_le_one; [apply norm_nonneg, Hfk|exact Hgk].
  - intros m Hnm Hkm. rewrite (call_FixedHiddenMLP _ _ _ _ _ _ _ Hself).
    unfold FixedHiddenMLP_call. unfold bind at 1.
    rewrite (FixedHiddenMLP_hidden_approx (call n) (call m) self flatten inputs
               (fun r y => call_approx n m r y Hnm) _ _ Hhidden).
    unfold bind, run_halve_while. rewrite (Hrun m Hkm). reflexivity.
Qed.

Lemma halving_loop_terminates_witness :
  FixedHiddenMLP_hidden (call 1) 2 0 Examples.x0 Examples.fixed_store
  = Some (Ok (T2 [[S754_finite false 15728640 (-22);
                   S754_finite false 12582912 (-21)]]), Examples.fixed_store) /\
  call 6 2 Examples.x0 Examples.fixed_store
  = Some (Ok (T0 (S754_finite false 10223616 (-23))), Examples.fixed_store) /\
  exists k,
    (k <= 278)%nat /\
    leb (norm32 (halved k (T2 [[S754_finite false 15728640 (-22);
                                S754_finite false 12582912 (-21)]]))) one
    = true.
Proof.
  split; [run_both|]. split; [run_both|].
  destruct (halving_loop_terminates 1 2 0 Examples.small_weight 1 Examples.x0
              (T2 [[S754_finite false 15728640 (-22);
                    S754_finite false 12582912 (-21)]])
              Examples.fixed_store Examples.fixed_store)
    as (k & Hk & Hfk & Hle & Hcall); [run_both ..|].
  exists k. split; [exact Hk|exact Hle].
Defined.

(** On a tensor that halving leaves as it is and whose norm is above 1, the
    loop is never left. *)
Lemma halve_while_stuck {E : Engine} (x : Tensor) :
  gt_scalar (norm x) 1 = true -> div_scalar x 2 = x ->
  forall n, halve_while n x = None.
Proof.
  intros Hg Hd. induction n as [|n IH]; [reflexivity|].
  cbn [halve_while]. rewrite Hg, Hd. exact IH.
Qed.

(** C6, as the claim states it, fails: finite entries of the input are not
    enough.  A row of 20 entries 2^127, through a [FixedHiddenMLP] whose
    constant holds 1/2 and whose kernel holds 1/4 everywhere, overflows to
    [+inf] before the loop; [+inf / 2] is [+inf] and the norm stays [+inf],
    so the call returns at no fuel. *)
Lemma finite_input_never_returns :
  all_finite Examples.big_input = true /\
  FixedHiddenMLP_hidden (call 1) 2 0 Examples.big_input Examples.overflow_store
  = Some (Ok Examples.inf_row, Examples.overflow_store) /\
  forall n, call n 2 Examples.big_input Examples.overflow_store = None.
Proof.
  assert (Hhidden :
    FixedHiddenMLP_hidden (call 1) 2 0 Examples.big_input Examples.overflow_store
    = Some (Ok Examples.inf_row, Examples.overflow_store)) by run_both.
  split; [run_both|]. split; [exact Hhidden|].
  intros [|n]; [reflexivity|].
  rewrite (call_FixedHiddenMLP (E:=engine) n 2 0 (T2 Examples.half_matrix) 1)
    by run_both.
  unfold FixedHiddenMLP_call. unfold bind at 1.
  destruct n as [|n]; [reflexivity|].
  rewrite (FixedHiddenMLP_hidden_approx (E:=engine) (call 1) (call (S n)) 2 0
             Examples.big_input
             (fun r y => call_approx 1 (S n) r y ltac:(lia)) _ _ Hhidden).
  unfold bind, run_halve_while.
  rewrite (halve_while_stuck (E:=engine) Examples.inf_row);
    [reflexivity|run_both ..].
Qed.

End Float32Facts.

(** ** More on the blocks *)

Section MoreBlockFacts.
Context {E : Engine}.
Implicit Types (s : Store).

Lemma MLP_init_spec hidden_layer out_layer s :
  MLP_init hidden_layer out_layer s
  = Some (Ok (S (S (length s))),
          s ++ [KerasLayer hidden_layer; KerasLayer out_layer;
                MLP (length s) (S (length s))]).
Proof.
  unfold MLP_init, bind, alloc.
  rewrite !length_app, <- !app_assoc. simpl.
  rewrite Nat.add_1_r, Nat.add_1_r. reflexivity.
Qed.

Lemma call_KerasLayer n self l x s :
  s !! self = Some (KerasLayer l) ->
  call (S n) self x s
  = Some (fst (layer_call l x),
          <[self := KerasLayer (snd (layer_call l x))]> s).
Proof.
  intros Hs. rewrite call_S. unfold bind, deref. rewrite Hs.
  destruct (layer_call l x); reflexivity.
Qed.

Lemma call_MLP n self hidden out x s :
  s !! self = Some (MLP hidden out) ->
  call (S n) self x s = (h <- call n hidden x ;; call n out h) s.
Proof.
  intros Hs. rewrite call_S. unfold bind at 1, deref. rewrite Hs. reflexivity.
Qed.

Lemma call_NestMLP n self net dense x s :
  s !! self = Some (NestMLP net dense) ->
  call (S n) self x s = (h <- call n net x ;; call n dense h) s.
Proof.
  intros Hs. rewrite call_S. unfold bind at 1, deref. rewrite Hs. reflexivity.
Qed.

(** X1.  [net = MLP()] followed by [net(x)]: the hidden layer is called on
    [x]; when it returns, the output layer is called on what it returned and
    its outcome is the outcome of the call; when it raises, the call raises
    the same and the output layer is not called.  Nothing else in the store
    changes. *)
Theorem new_MLP_runs_hidden_then_out n hidden_layer out_layer x s self s' :
  MLP_init hidden_layer out_layer s = Some (Ok self, s') ->
  call (S (S n)) self x s'
  = match layer_call hidden_layer x with
    | (Ok h, hidden_layer') =>
        Some (fst (layer_call out_layer h),
              s ++ [KerasLayer hidden_layer';
                    KerasLayer (snd (layer_call out_layer h));
                    MLP (length s) (S (length s))])
    | (Raise e, hidden_layer') =>
        Some (Raise e,
              s ++ [KerasLayer hidden_layer'; KerasLayer out_layer;
                    MLP (length s) (S (length s))])
    end.
Proof.
  rewrite MLP_init_spec. intros Hinit. inversion Hinit; subst self s'.
  clear Hinit.
  rewrite (call_MLP _ _ (length s) (S (length s))).
  2:{ replace (S (S (length s))) with (length s + 2) by lia.
      rewrite lookup_app_r by lia.
      replace (length s + 2 - length s) with 2 by lia. reflexivity. }
  unfold bind.
  rewrite (call_KerasLayer _ _ hidden_layer)
    by (apply list_lookup_middle; reflexivity).
  rewrite insert_app_r_alt, Nat.sub_diag by lia. cbn [fst snd].
  destruct (layer_call hidden_layer x) as [[h|e] hidden_layer'];
    cbn [fst snd]; [|reflexivity].
  rewrite (call_KerasLayer _ _ out_layer).
  2:{ rewrite lookup_app_r by lia.
      replace (S (length s) - length s) with 1 by lia. reflexivity. }
  rewrite insert_app_r_alt by lia.
  replace (S (length s) - length s) with 1 by lia. reflexivity.
Qed.

(** X2.  A block with two children, called one after the other, is the
    container of the two: an [MLP] returns what [MySequential(hidden, out)]
    returns, and a [NestMLP] what [MySequential(net, dense)] returns, with
    the same store and the same exceptions, at every fuel. *)
Theorem two_step_blocks_are_sequential n self container first second x s :
  s !! self = Some (MLP first second) \/
  s !! self = Some (NestMLP first second) ->
  s !! container = Some (MySequential [first; second]) ->
  call (S n) self x s = call (S n) container x s.
Proof.
  intros Hself Hcont.
  rewrite (call_MySequential _ _ _ _ _ Hcont).
  rewrite MySequential_call_cons.
  assert (Hstep : (h <- call n first x ;; call n second h) s
                  = (h <- call n first x ;;
                     MySequential_call (call n) [second] h) s).
  { apply bind_ext. intros h s1. simpl. symmetry. apply bind_ret_r. }
  destruct Hself as [Hself|Hself].
  - rewrite (call_MLP _ _ _ _ _ _ Hself). exact Hstep.
  - rewrite (call_NestMLP _ _ _ _ _ _ Hself). exact Hstep.
Qed.

(** A call leaves every object of the notebook's classes as it is. *)
Lemma call_keeps_objects n self x s o s' r ob :
  call n self x s = Some (o, s') ->
  (forall l, ob <> KerasLayer l) ->
  s !! r = Some ob <-> s' !! r = Some ob.
Proof.
  intros Hcall Hob.
  pose proof (call_keeps_classes n self x s o s' Hcall) as Hf.
  pose proof (proj1 (Forall2_lookup _ _ _) Hf r) as Hr.
  destruct Hr as [o1 o2 Ho|]; [|split; discriminate].
  split; intros [= ->].
  - destruct ob; simpl in Ho; try (subst; reflexivity).
    exfalso. eapply Hob; reflexivity.
  - destruct o1, ob; simpl in Ho; try discriminate; try (subst; reflexivity);
      try (inversion Ho; reflexivity).
    exfalso. eapply Hob; reflexivity.
Qed.

End MoreBlockFacts.

Section MoreUnitFacts.
Context {E : Engine}.
Implicit Types (s : Store).

Lemma children_related R (o1 o2 : Obj) :
  related_obj R o1 o2 -> children o1 = children o2.
Proof.
  destruct o1, o2; simpl; intros H; try discriminate; try reflexivity;
    inversion H; reflexivity.
Qed.

Lemma reaches_related R s s' a b :
  Forall2 (related_obj R) s s' -> reaches s a b -> reaches s' a b.
Proof.
  intros Hf. induction 1 as [r o c Hr Hc|r1 r2 r3 _ IH1 _ IH2].
  - destruct (Forall2_lookup_l _ _ _ _ _ Hf Hr) as (o' & Ho' & Hrel).
    apply (reaches_child s' r o' c Ho').
    rewrite <- (children_related _ _ _ Hrel). exact Hc.
  - eapply reaches_trans; eauto.
Qed.

Lemma reaches_related_inv R s s' a b :
  Forall2 (related_obj R) s s' -> reaches s' a b -> reaches s a b.
Proof.
  intros Hf. induction 1 as [r o c Hr Hc|r1 r2 r3 _ IH1 _ IH2].
  - destruct (Forall2_lookup_r _ _ _ _ _ Hf Hr) as (o' & Ho' & Hrel).
    apply (reaches_child s r o' c Ho').
    rewrite (children_related _ _ _ Hrel). exact Hc.
  - eapply reaches_trans; eauto.
Qed.

Lemma closed_related R s s' :
  Forall2 (related_obj R) s s' -> closed s -> closed s'.
Proof.
  intros Hf Hc r o c Hr Hin.
  destruct (Forall2_lookup_r _ _ _ _ _ Hf Hr) as (o' & Ho' & Hrel).
  rewrite <- (Forall2_length _ _ _ Hf).
  apply (Hc r o' c Ho'). rewrite (children_related _ _ _ Hrel). exact Hin.
Qed.

(** X3.  A call never rewires the blocks.  Whatever it returns or raises,
    the store it leaves has the same number of objects; every object of the
    notebook's classes is the object it was ([self.modules] has the same
    elements in the same order, and [self.hidden], [self.out],
    [self.flatten], [self.dense] and [self.net] name what they named); a
    framework layer is still a framework layer; and a block reaches the
    blocks it reached. *)
Theorem call_never_rewires_blocks n self x s o s' :
  call n self x s = Some (o, s') ->
  length s' = length s /\
  (forall r ob, (forall l, ob <> KerasLayer l) ->
     (s !! r = Some ob <-> s' !! r = Some ob)) /\
  (forall r, (exists l, s !! r = Some (KerasLayer l)) <->
             (exists l, s' !! r = Some (KerasLayer l))) /\
  (forall a b, reaches s a b <-> reaches s' a b).
Proof.
  intros Hcall.
  pose proof (call_keeps_classes n self x s o s' Hcall) as Hf.
  split; [symmetry; apply (Forall2_length _ _ _ Hf)|]. split; [|split].
  - intros r ob Hob. eapply call_keeps_objects; eauto.
  - intros r. split; intros [l Hl].
    + destruct (Forall2_lookup_l _ _ _ _ _ Hf Hl) as (o' & Ho' & Hrel).
      destruct o'; simpl in Hrel; try discriminate. eauto.
    + destruct (Forall2_lookup_r _ _ _ _ _ Hf Hl) as (o' & Ho' & Hrel).
      destruct o'; simpl in Hrel; try discriminate. eauto.
  - intros a b. split.
    + apply (reaches_related _ _ _ _ _ Hf).
    + apply (reaches_related_inv _ _ _ _ _ Hf).
Qed.

(** *** [FixedHiddenMLP.call], step by step *)

(** The call of a [FixedHiddenMLP] whose two layers are different objects,
    with the calls of the layers run. *)
Lemma FixedHiddenMLP_call_steps n self f w d lf ld inputs s :
  s !! self = Some (FixedHiddenMLP f w d) ->
  s !! f = Some (KerasLayer lf) ->
  s !! d = Some (KerasLayer ld) ->
  f <> d ->
  call (S (S n)) self inputs s
  = let s1 := <[f := KerasLayer (snd (layer_call lf inputs))]> s in
    match fst (layer_call lf inputs) with
    | Raise e => Some (Raise e, s1)
    | Ok x1 =>
        match matmul x1 w with
        | Raise e => Some (Raise e, s1)
        | Ok p =>
            let x2 := relu (add_scalar p 1) in
            let s2 := <[d := KerasLayer (snd (layer_call ld x2))]> s1 in
            match fst (layer_call ld x2) with
            | Raise e => Some (Raise e, s2)
            | Ok x3 =>
                match halve_while (S n) x3 with
                | Some x4 => Some (Ok (scalar_tensor (reduce_sum x4)), s2)
                | None => None
                end
            end
        end
    end.
Proof.
  intros Hself Hf Hd Hfd.
  assert (Hsf : self <> f) by congruence.
  assert (Hsd : self <> d) by congruence.
  rewrite (call_FixedHiddenMLP _ _ _ _ _ _ _ Hself).
  unfold FixedHiddenMLP_call, FixedHiddenMLP_hidden.
  unfold bind at 1. unfold bind at 1.
  rewrite (call_KerasLayer _ _ _ _ _ Hf).
  cbv zeta.
  destruct (fst (layer_call lf inputs)) as [x1|e]; [|reflexivity].
  set (s1 := <[f := KerasLayer (snd (layer_call lf inputs))]> s).
  assert (Hself1 : s1 !! self = Some (FixedHiddenMLP f w d))
    by (unfold s1; rewrite list_lookup_insert_ne by congruence; exact Hself).
  assert (Hd1 : s1 !! d = Some (KerasLayer ld))
    by (unfold s1; rewrite list_lookup_insert_ne by congruence; exact Hd).
  unfold bind at 1. unfold get_rand_weight at 1, bind at 1, deref at 1.
  rewrite Hself1. unfold ret at 1.
  unfold bind at 1, lift at 1.
  destruct (matmul x1 w) as [p|e]; [|reflexivity].
  unfold bind at 1. unfold get_dense at 1, bind at 1, deref at 1.
  rewrite Hself1. unfold ret at 1.
  rewrite (call_KerasLayer _ _ _ _ _ Hd1).
  destruct (fst (layer_call ld (relu (add_scalar p 1)))) as [x3|e];
    [|reflexivity].
  unfold bind, run_halve_while.
  destruct (halve_while (S n) x3); reflexivity.
Qed.

Lemma halved_S k (x : Tensor) : halved (S k) x = halved k (div_scalar x 2).
Proof. unfold halved. rewrite Nat.iter_succ_r. reflexivity. Qed.

(** The loop leaves with [x] halved [k] times, for the first [k] whose norm
    is not above 1. *)
Lemma halve_while_exit n : forall (x x' : Tensor),
  halve_while n x = Some x' ->
  exists k,
    k < n /\ x' = halved k x /\
    gt_scalar (norm (halved k x)) 1 = false /\
    forall j, j < k -> gt_scalar (norm (halved j x)) 1 = true.
Proof.
  induction n as [|n IH]; intros x x'; [discriminate|].
  cbn [halve_while]. destruct (gt_scalar (norm x) 1) eqn:Hg.
  - intros Hrun. apply IH in Hrun as (k & Hk & Hx & Hout & Hin).
    exists (S k). rewrite halved_S. split; [lia|]. split; [exact Hx|].
    split; [exact Hout|]. intros [|j] Hj; [exact Hg|].
    rewrite halved_S. apply Hin. lia.
  - intros [= <-]. exists 0. split; [lia|]. split; [reflexivity|].
    split; [exact Hg|]. intros j Hj. lia.
Qed.

(** X4.  The loop [while tf.norm(x) > 1: x /= 2] with at most [n] tests:
    it is left with [x'] exactly when [x'] is [x] halved [k] times for the
    first [k] whose norm is not above 1, and this [k] is below [n]. *)
Theorem halve_while_first_exit n (x x' : Tensor) :
  halve_while n x = Some x' <->
  exists k,
    k < n /\ x' = halved k x /\
    gt_scalar (norm (halved k x)) 1 = false /\
    forall j, j < k -> gt_scalar (norm (halved j x)) 1 = true.
Proof.
  split; [apply halve_while_exit|].
  revert x. induction n as [|n IH]; intros x (k & Hk & Hx & Hout & Hin);
    [lia|].
  cbn [halve_while]. destruct k as [|k].
  - change (gt_scalar (norm x) 1 = false) in Hout. rewrite Hout, Hx.
    reflexivity.
  - pose proof (Hin 0 ltac:(lia)) as Hg.
    change (gt_scalar (norm x) 1 = true) in Hg. rewrite Hg. apply IH.
    exists k. rewrite halved_S in Hx, Hout. split; [lia|].
    split; [exact Hx|]. split; [exact Hout|].
    intros j Hj. rewrite <- halved_S. apply Hin. lia.
Qed.

(** X5.  What a [FixedHiddenMLP] returns.  When a call returns [y], at any
    fuel, then the flatten layer returned some [x1] on the input, the
    product of [x1] and [rand_weight] is some [p], the dense layer returned
    some [x3] on [relu(p + 1)], and [y] is the sum of the entries of [x3]
    halved [k] times, for the first [k] that brings the norm to 1 or below.
    The store is the one before the call with the flatten layer and the
    dense layer each called once, and nothing else changed. *)
Theorem FixedHiddenMLP_returns_sum_of_small_tensor m self f w d lf ld inputs
    y s s' :
  s !! self = Some (FixedHiddenMLP f w d) ->
  s !! f = Some (KerasLayer lf) ->
  s !! d = Some (KerasLayer ld) ->
  f <> d ->
  call m self inputs s = Some (Ok y, s') ->
  exists x1 p x3 k,
    fst (layer_call lf inputs) = Ok x1 /\
    matmul x1 w = Ok p /\
    fst (layer_call ld (relu (add_scalar p 1))) = Ok x3 /\
    gt_scalar (norm (halved k x3)) 1 = false /\
    (forall j, j < k -> gt_scalar (norm (halved j x3)) 1 = true) /\
    y = scalar_tensor (reduce_sum (halved k x3)) /\
    s' = <[d := KerasLayer (snd (layer_call ld (relu (add_scalar p 1))))]>
           (<[f := KerasLayer (snd (layer_call lf inputs))]> s).
Proof.
  intros Hself Hf Hd Hfd Hcall.
  destruct m as [|[|n]]; [discriminate| |].
  - rewrite (call_FixedHiddenMLP _ _ _ _ _ _ _ Hself) in Hcall.
    discriminate Hcall.
  - rewrite (FixedHiddenMLP_call_steps _ _ _ _ _ _ _ _ _ Hself Hf Hd Hfd)
      in Hcall.
    cbv zeta in Hcall.
    destruct (fst (layer_call lf inputs)) as [x1|e] eqn:H1; [|discriminate].
    destruct (matmul x1 w) as [p|e] eqn:H2; [|discriminate].
    destruct (fst (layer_call ld (relu (add_scalar p 1)))) as [x3|e] eqn:H3;
      [|discriminate].
    destruct (halve_while (S n) x3) as [x4|] eqn:Hloop; [|discriminate].
    apply halve_while_exit in Hloop as (k & Hk & -> & Hout & Hin).
    inversion Hcall; subst. exists x1, p, x3, k.
    repeat (split; [first [reflexivity|assumption]|]). reflexivity.
Qed.

(** X6.  Errors of a [FixedHiddenMLP].  A call raises exactly what the
    first failing step raises: the flatten layer, the product with
    [rand_weight], or the dense layer; the loop and the final sum raise
    nothing.  When the flatten layer or the product fails, the dense layer
    is not called: the store is the one before the call with the flatten
    layer called once, and the dense layer is the object it was. *)
Theorem FixedHiddenMLP_raises_first_error n self f w d lf ld inputs e s :
  s !! self = Some (FixedHiddenMLP f w d) ->
  s !! f = Some (KerasLayer lf) ->
  s !! d = Some (KerasLayer ld) ->
  f <> d ->
  ((exists s', call (S (S n)) self inputs s = Some (Raise e, s')) <->
   fst (layer_call lf inputs) = Raise e \/
   exists x1, fst (layer_call lf inputs) = Ok x1 /\
     (matmul x1 w = Raise e \/
      exists p, matmul x1 w = Ok p /\
        fst (layer_call ld (relu (add_scalar p 1))) = Raise e)) /\
  (fst (layer_call lf inputs) = Raise e \/
   (exists x1, fst (layer_call lf inputs) = Ok x1 /\ matmul x1 w = Raise e) ->
   call (S (S n)) self inputs s
   = Some (Raise e, <[f := KerasLayer (snd (layer_call lf inputs))]> s) /\
   <[f := KerasLayer (snd (layer_call lf inputs))]> s !! d
   = Some (KerasLayer ld)).
Proof.
  intros Hself Hf Hd Hfd.
  rewrite (FixedHiddenMLP_call_steps _ _ _ _ _ _ _ _ _ Hself Hf Hd Hfd).
  cbv zeta. split.
  - destruct (fst (layer_call lf inputs)) as [x1|e1] eqn:H1.
    + destruct (matmul x1 w) as [p|e2] eqn:H2.
      * destruct (fst (layer_call ld (relu (add_scalar p 1)))) as [x3|e3]
          eqn:H3.
        { split.
          - intros [s' Hs']. destruct (halve_while (S n) x3); discriminate.
          - intros [H|(x1' & [= <-] & [H|(p' & Hp & H)])]; congruence. }
        { split.
          - intros [s' [= ->]]. right. exists x1. split; [reflexivity|].
            right. exists p. split; [exact H2|exact H3].
          - intros [H|(x1' & [= <-] & [H|(p' & Hp & H)])]; try congruence.
            assert (p' = p) by congruence. subst p'.
            assert (e = e3) by congruence. subst e. eauto. }
      * split.
        { intros [s' [= ->]]. right. exists x1. split; [reflexivity|].
          left. exact H2. }
        { intros [H|(x1' & [= <-] & [H|(p' & Hp & _)])]; try congruence.
          assert (e = e2) by congruence. subst e. eauto. }
    + split.
      * intros [s' [= ->]]. left. reflexivity.
      * intros [[= ->]|(x1' & H & _)]; [eauto|discriminate].
  - intros Hfail. split.
    + destruct Hfail as [H|(x1 & H1 & H2)].
      * rewrite H. reflexivity.
      * rewrite H1, H2. reflexivity.
    + rewrite list_lookup_insert_ne by exact Hfd. exact Hd.
Qed.

End MoreUnitFacts.

(** ** More on the devices *)

Section MoreDeviceFacts.
Import F32 Gpus.

(** X7.  [try_gpu] with a negative index.  The test [len(...) >= i + 1]
    holds for every negative [i], on every machine: the function returns
    the context of a GPU [i], which is not the CPU's and which
    [try_all_gpus()] does not list. *)
Theorem try_gpu_negative_index gpus i :
  (i < 0)%Z ->
  try_gpu gpus i = gpu i /\
  try_gpu gpus i <> cpu0 /\
  ~ In (try_gpu gpus i) (try_all_gpus gpus).
Proof.
  intros Hi. rewrite try_gpu_cases.
  destruct (Z.leb_spec (i + 1) (Z.of_nat (length gpus))) as [_|Hgt]; [|lia].
  split; [reflexivity|]. split; [apply gpu_is_not_cpu|].
  rewrite try_all_gpus_cases. destruct gpus as [|g gpus].
  - intros [H|[]]. exact (gpu_is_not_cpu i (eq_sym H)).
  - rewrite in_map_iff. intros (j & Hj & _). apply gpu_inj in Hj. lia.
Qed.

Lemma try_gpu_negative_index_witness :
  try_gpu two_gpus (-1) = gpu (-1) /\
  ~ In (try_gpu two_gpus (-1)) (try_all_gpus two_gpus).
Proof.
  destruct (try_gpu_negative_index two_gpus (-1)) as (H1 & _ & H3); [lia|].
  split; [exact H1|exact H3].
Defined.

(** X8.  [try_all_gpus()] holds what [try_gpu(i)] returns for [i] from 0
    up to the number of GPUs listed, or for 0 alone when none is listed. *)
Theorem try_all_gpus_is_try_gpu_of_each gpus :
  try_all_gpus gpus
  = map (fun i => try_gpu gpus (Z.of_nat i)) (seq 0 (Nat.max 1 (length gpus))).
Proof.
  rewrite try_all_gpus_cases. destruct gpus as [|g gpus]; [reflexivity|].
  replace (Nat.max 1 (length (g :: gpus))) with (length (g :: gpus))
    by (simpl; lia).
  apply map_ext_in. intros i Hi. apply in_seq in Hi.
  rewrite try_gpu_cases.
  destruct (Z.leb_spec (Z.of_nat i + 1) (Z.of_nat (length (g :: gpus))));
    [reflexivity|lia].
Qed.

(** X9.  Two indices get the same context from [try_gpu] exactly when they
    are the same index, or when no GPU is listed for either and both fall
    back to the CPU. *)
Theorem try_gpu_same_context gpus i j :
  try_gpu gpus i = try_gpu gpus j <->
  i = j \/
  ((Z.of_nat (length gpus) < i + 1)%Z /\ (Z.of_nat (length gpus) < j + 1)%Z).
Proof.
  rewrite !try_gpu_cases.
  destruct (Z.leb_spec (i + 1) (Z.of_nat (length gpus))) as [Hi|Hi],
           (Z.leb_spec (j + 1) (Z.of_nat (length gpus))) as [Hj|Hj].
  - split; [intros H; left; apply gpu_inj, H|].
    intros [->|[? ?]]; [reflexivity|lia].
  - split; [intros H; exfalso; exact (gpu_is_not_cpu i H)|].
    intros [->|[? ?]]; lia.
  - split; [intros H; exfalso; exact (gpu_is_not_cpu j (eq_sym H))|].
    intros [->|[? ?]]; lia.
  - split; [intros _; right; lia|reflexivity].
Qed.

End MoreDeviceFacts.

(** ** NaN and infinities in the loop *)

Section MoreFloat32Facts.
Import F32.

Lemma add_nan_r x : add x S754_nan = S754_nan.
Proof. destruct x as [s|[]| |s m e]; reflexivity. Qed.

Lemma fold_add_nan l : fold_left add l S754_nan = S754_nan.
Proof. induction l as [|v l IH]; [reflexivity|exact IH]. Qed.

Lemma is_nan_eq v : is_nan v = true -> v = S754_nan.
Proof. destruct v; simpl; congruence. Qed.

Lemma sum_with_nan l : forall acc,
  existsb is_nan l = true -> fold_left add l acc = S754_nan.
Proof.
  induction l as [|v l IH]; intros acc; cbn [existsb fold_left];
    [discriminate|].
  destruct (is_nan v) eqn:Hv.
  - intros _. rewrite (is_nan_eq v Hv), add_nan_r. apply fold_add_nan.
  - apply IH.
Qed.

Lemma squares_with_nan l :
  existsb is_nan l = true ->
  existsb is_nan (map (fun v => mul v v) l) = true.
Proof.
  induction l as [|v l IH]; cbn [existsb map]; [discriminate|].
  destruct (is_nan v) eqn:Hv.
  - intros _. rewrite (is_nan_eq v Hv). reflexivity.
  - intros Hl. rewrite (IH Hl). apply orb_true_r.
Qed.

(** The norm of a tensor with a NaN entry is NaN, which is not above 1. *)
Lemma norm_with_nan t : has_nan t = true -> norm32 t = S754_nan.
Proof.
  unfold has_nan, norm32, sum. intros Hn.
  rewrite sum_with_nan by (apply squares_with_nan, Hn). reflexivity.
Qed.

Lemma fuel_of_hidden n m self flatten inputs x (s s' : Store) r :
  FixedHiddenMLP_hidden (call n) self flatten inputs s = Some (Ok x, s') ->
  FixedHiddenMLP_hidden (call m) self flatten inputs s = Some r ->
  r = (Ok x, s').
Proof.
  intros Hn Hm. destruct (Nat.le_gt_cases n m) as [Hle|Hgt].
  - rewrite (FixedHiddenMLP_hidden_approx (call n) (call m) self flatten inputs
               (fun u y => call_approx n m u y Hle) _ _ Hn) in Hm.
    congruence.
  - assert (Hle : m <= n) by lia.
    rewrite (FixedHiddenMLP_hidden_approx (call m) (call n) self flatten inputs
               (fun u y => call_approx m n u y Hle) _ _ Hm) in Hn.
    congruence.
Qed.

(** X10.  A NaN before the loop.  When the tensor the statements before the
    loop produce has a NaN entry, its norm is NaN and the test
    [tf.norm(x) > 1] is false: the loop is left at once, with no halving,
    and the call returns NaN. *)
Theorem nan_leaves_loop_at_once n self flatten w dense inputs x
    (s s' : Store) :
  s !! self = Some (FixedHiddenMLP flatten w dense) ->
  FixedHiddenMLP_hidden (call n) self flatten inputs s = Some (Ok x, s') ->
  has_nan x = true ->
  halve_while 1 x = Some x /\
  forall m, n <= m -> 1 <= m ->
    call (S m) self inputs s = Some (Ok (T0 S754_nan), s').
Proof.
  intros Hself Hhidden Hnan.
  assert (Hg : @gt_scalar engine (@norm engine x) 1 = false).
  { change (@gt_scalar engine (@norm engine x) 1)
      with (ltb (of_Z 1) (norm32 x)).
    rewrite (norm_with_nan x Hnan). reflexivity. }
  split.
  - cbn [halve_while]. rewrite Hg. reflexivity.
  - intros m Hnm Hm. rewrite (call_FixedHiddenMLP _ _ _ _ _ _ _ Hself).
    unfold FixedHiddenMLP_call. unfold bind at 1.
    rewrite (FixedHiddenMLP_hidden_approx (call n) (call m) self flatten inputs
               (fun r y => call_approx n m r y Hnm) _ _ Hhidden).
    unfold bind, run_halve_while.
    destruct m as [|m]; [lia|]. cbn [halve_while]. rewrite Hg.
    unfold ret.
    change (@reduce_sum engine x) with (sum (entries x)).
    unfold sum. rewrite sum_with_nan by exact Hnan. reflexivity.
Qed.

(** *** Infinities *)

Lemma add_pinf_r a : is_nonneg a = true -> add a pinf = pinf.
Proof. destruct a as [sa|[]| |[] ma ea]; simpl; try discriminate; reflexivity. Qed.

Lemma add_pinf_l b : is_nonneg b = true -> add pinf b = pinf.
Proof. destruct b as [sb|[]| |[] mb eb]; simpl; try discriminate; reflexivity. Qed.

Lemma fold_add_pinf l :
  Forall (fun v => is_nonneg v = true) l -> fold_left add l pinf = pinf.
Proof.
  induction l as [|v l IH]; intros Hl; cbn [fold_left]; [reflexivity|].
  inversion Hl; subst. rewrite add_pinf_l by assumption. apply IH. assumption.
Qed.

Lemma sum_with_pinf l : forall acc,
  is_nonneg acc = true -> Forall (fun v => is_nonneg v = true) l ->
  In pinf l -> fold_left add l acc = pinf.
Proof.
  induction l as [|v l IH]; intros acc Ha Hl Hin; [destruct Hin|].
  inversion Hl; subst. cbn [fold_left]. destruct Hin as [->|Hin].
  - rewrite add_pinf_r by exact Ha. apply fold_add_pinf. assumption.
  - apply IH; [apply add_nonneg|..]; assumption.
Qed.

Lemma is_number_not_nan v : is_number v = true -> v <> S754_nan.
Proof. intros H ->. discriminate H. Qed.

Lemma mul_self_inf v : is_inf v = true -> mul v v = pinf.
Proof. destruct v as [s|[]| |s m e]; simpl; try discriminate; reflexivity. Qed.

(** The norm of a tensor without NaN and with an infinite entry is
    [+inf]. *)
Lemma norm_with_inf t :
  all_numbers t = true -> has_inf t = true -> norm32 t = pinf.
Proof.
  unfold all_numbers, has_inf, norm32, sum. intros Hnum Hinf.
  rewrite sum_with_pinf; [reflexivity|reflexivity| |].
  - rewrite List.Forall_forall. intros sq Hsq.
    apply in_map_iff in Hsq as (v & <- & Hv).
    apply mul_self_nonneg, is_number_not_nan.
    rewrite forallb_forall in Hnum. apply Hnum, Hv.
  - apply existsb_exists in Hinf as (v & Hv & Hi).
    apply in_map_iff. exists v. split; [apply mul_self_inf, Hi|exact Hv].
Qed.

Lemma half_number v :
  is_number v = true ->
  is_number (div v (of_Z 2)) = true /\
  (is_inf v = true -> is_inf (div v (of_Z 2)) = true).
Proof.
  unfold is_number. destruct (finite v) eqn:Hf.
  - intros _. destruct (half_entry v Hf) as [Hh _]. rewrite Hh.
    split; [reflexivity|].
    destruct v; simpl in *; congruence.
  - destruct v as [s|s| |s m e]; simpl; try discriminate.
    intros _. change (of_Z 2) with (S754_finite false 8388608 (-22)).
    split; reflexivity.
Qed.

Lemma halve_numbers l :
  forallb is_number l = true ->
  forallb is_number (map (fun v => div v (of_Z 2)) l) = true /\
  (existsb is_inf l = true ->
   existsb is_inf (map (fun v => div v (of_Z 2)) l) = true).
Proof.
  induction l as [|v l IH]; cbn [map forallb existsb];
    [intros _; split; [reflexivity|discriminate]|].
  rewrite andb_true_iff. intros [Hv Hl].
  destruct (half_number v Hv) as (Hn & Hi).
  destruct (IH Hl) as (Hn' & Hi').
  rewrite Hn, Hn'. split; [reflexivity|].
  rewrite !orb_true_iff. intros [H|H]; auto.
Qed.

Lemma inf_above_one t :
  all_numbers t = true -> has_inf t = true ->
  @gt_scalar engine (@norm engine t) 1 = true.
Proof.
  intros Hnum Hinf.
  change (@gt_scalar engine (@norm engine t) 1) with (ltb (of_Z 1) (norm32 t)).
  rewrite (norm_with_inf t Hnum Hinf). reflexivity.
Qed.

Lemma halve_with_inf t :
  all_numbers t = true -> has_inf t = true ->
  all_numbers (@div_scalar engine t 2) = true /\
  has_inf (@div_scalar engine t 2) = true.
Proof.
  unfold all_numbers, has_inf.
  change (@div_scalar engine t 2) with (tmap (fun v => div v (of_Z 2)) t).
  rewrite entries_tmap. intros Hnum Hinf.
  destruct (halve_numbers _ Hnum) as [H1 H2]. auto.
Qed.

Lemma halve_while_with_inf n : forall t,
  all_numbers t = true -> has_inf t = true ->
  @halve_while engine n t = None.
Proof.
  induction n as [|n IH]; intros t Hnum Hinf; [reflexivity|].
  cbn [halve_while]. rewrite (inf_above_one t Hnum Hinf).
  destruct (halve_with_inf t Hnum Hinf) as [H1 H2]. apply IH; assumption.
Qed.

(** X11.  An infinity before the loop.  When the tensor the statements
    before the loop produce has no NaN and has an infinite entry, its norm
    is [+inf], and so is the norm after every number of halvings: the loop
    is never left, and the call returns at no fuel. *)
Theorem infinity_never_leaves_loop n self flatten w dense inputs x
    (s s' : Store) :
  s !! self = Some (FixedHiddenMLP flatten w dense) ->
  FixedHiddenMLP_hidden (call n) self flatten inputs s = Some (Ok x, s') ->
  all_numbers x = true ->
  has_inf x = true ->
  (forall k, norm32 (halved k x) = pinf) /\
  forall m, call m self inputs s = None.
Proof.
  intros Hself Hhidden Hnum Hinf. split.
  - assert (Hk : forall k, all_numbers (halved k x) = true /\
                           has_inf (halved k x) = true).
    { induction k as [|k [IH1 IH2]]; [split; assumption|].
      unfold halved in *. cbn [Nat.iter]. apply halve_with_inf; assumption. }
    intros k. destruct (Hk k). apply norm_with_inf; assumption.
  - intros [|m]; [reflexivity|].
    rewrite (call_FixedHiddenMLP _ _ _ _ _ _ _ Hself).
    unfold FixedHiddenMLP_call. unfold bind at 1.
    destruct (FixedHiddenMLP_hidden (call m) self flatten inputs s)
      as [r|] eqn:Hm; [|reflexivity].
    rewrite (fuel_of_hidden _ _ _ _ _ _ _ _ _ Hhidden Hm).
    unfold bind, run_halve_while.
    rewrite (halve_while_with_inf m x Hnum Hinf). reflexivity.
Qed.

(** *** The sign of the result *)

Lemma relu1_nonneg_or_nan v : nonneg_or_nan (relu1 v) = true.
Proof. destruct v as [s|[]| |[] m e]; try destruct s; reflexivity. Qed.

Lemma half_nonneg_or_nan v :
  nonneg_or_nan v = true -> nonneg_or_nan (div v (of_Z 2)) = true.
Proof.
  change (of_Z 2) with (S754_finite false 8388608 (-22)).
  destruct v as [s|[]| |[] m e]; cbn [nonneg_or_nan is_nonneg is_nan orb];
    try discriminate; try reflexivity.
  intros _. apply orb_true_iff. left. unfold div. cbn [SFdiv xorb].
  rewrite core_shape. cbv beta iota zeta. apply round_nonneg.
  apply Z.div_pos; [|lia].
  destruct (_ + 22 - _)%Z; [lia| |lia]. apply Z.shiftl_nonneg. lia.
Qed.

Lemma add_nonneg_or_nan a b :
  nonneg_or_nan a = true -> nonneg_or_nan b = true ->
  nonneg_or_nan (add a b) = true.
Proof.
  unfold nonneg_or_nan. rewrite !orb_true_iff.
  intros [Ha|Ha] [Hb|Hb].
  - left. apply add_nonneg; assumption.
  - rewrite (is_nan_eq b Hb), add_nan_r. right. reflexivity.
  - rewrite (is_nan_eq a Ha). right. destruct b; reflexivity.
  - rewrite (is_nan_eq a Ha). right. destruct b; reflexivity.
Qed.

Lemma sum_nonneg_or_nan l : forall acc,
  nonneg_or_nan acc = true -> forallb nonneg_or_nan l = true ->
  nonneg_or_nan (fold_left add l acc) = true.
Proof.
  induction l as [|v l IH]; intros acc Ha; cbn [forallb fold_left];
    [intros _; exact Ha|].
  rewrite andb_true_iff. intros [Hv Hl].
  apply IH; [apply add_nonneg_or_nan|]; assumption.
Qed.

Lemma halve_while_keeps {E : Engine} (P : Tensor -> Prop) n : forall x x',
  (forall t, P t -> P (div_scalar t 2)) ->
  P x -> halve_while n x = Some x' -> P x'.
Proof.
  induction n as [|n IH]; intros x x' Hstep Hx; [discriminate|].
  cbn [halve_while]. destruct (gt_scalar (norm x) 1).
  - apply IH; auto.
  - intros [= <-]. exact Hx.
Qed.

Lemma map_relu_entries (rows : list (list float32)) (f : list float32 -> list float32) :
  forallb nonneg_or_nan (concat (map (fun r => map relu1 (f r)) rows)) = true.
Proof.
  induction rows as [|r rows IH]; cbn [map concat]; [reflexivity|].
  rewrite forallb_app, IH, andb_true_r.
  rewrite forallb_forall. intros v Hv.
  apply in_map_iff in Hv as (u & <- & _). apply relu1_nonneg_or_nan.
Qed.

(** What a [Dense] layer with the ReLU activation returns has no negative
    entry. *)
Lemma dense_relu_entries kernel bias t y :
  fst (layer_call32 (Dense kernel bias true) t) = Ok y ->
  forallb nonneg_or_nan (entries y) = true.
Proof.
  cbn [layer_call32].
  destruct (matmul32 t (T2 kernel)) as [[v|v|p]|e]; try discriminate.
  destruct (length bias =? width kernel)%nat; [|discriminate].
  cbn [fst]. intros [= <-]. cbn [entries].
  apply (map_relu_entries p (fun r => zip_with add r bias)).
Qed.

(** X12.  A [FixedHiddenMLP] never returns a negative number.  Its dense
    layer has the ReLU activation; halving keeps signs, and so does the sum:
    what a call returns is a scalar that is zero, positive ([+inf]
    included) or NaN. *)
Theorem FixedHiddenMLP_never_negative m self f w d lf kernel bias inputs y
    (s s' : Store) :
  s !! self = Some (FixedHiddenMLP f w d) ->
  s !! f = Some (KerasLayer lf) ->
  s !! d = Some (KerasLayer (Dense kernel bias true)) ->
  f <> d ->
  call m self inputs s = Some (Ok y, s') ->
  exists v, y = T0 v /\ nonneg_or_nan v = true.
Proof.
  intros Hself Hf Hd Hfd Hcall.
  destruct m as [|[|n]]; [discriminate| |].
  - rewrite (call_FixedHiddenMLP _ _ _ _ _ _ _ Hself) in Hcall.
    discriminate Hcall.
  - rewrite (FixedHiddenMLP_call_steps _ _ _ _ _ _ _ _ _ Hself Hf Hd Hfd)
      in Hcall.
    cbv zeta in Hcall.
    destruct (fst (layer_call lf inputs)) as [x1|e]; [|discriminate].
    destruct (matmul x1 w) as [p|e]; [|discriminate].
    destruct (fst (@layer_call engine (Dense kernel bias true)
                     (relu (add_scalar p 1)))) as [x3|e] eqn:H3;
      [|discriminate].
    destruct (halve_while (S n) x3) as [x4|] eqn:Hloop; [|discriminate].
    inversion Hcall; subst. eexists. split; [reflexivity|].
    change (@reduce_sum engine x4) with (sum (entries x4)). unfold sum.
    apply sum_nonneg_or_nan; [reflexivity|].
    apply (halve_while_keeps (E:=engine)
             (fun t => forallb nonneg_or_nan (entries t) = true)
             (S n) x3 x4); [|exact (dense_relu_entries _ _ _ _ H3)|exact Hloop].
    intros t Ht.
    change (@div_scalar engine t 2) with (tmap (fun v => div v (of_Z 2)) t).
    rewrite entries_tmap, forallb_forall. intros v Hv.
    apply in_map_iff in Hv as (u & <- & Hu). apply half_nonneg_or_nan.
    rewrite forallb_forall in Ht. apply Ht, Hu.
Qed.

End MoreFloat32Facts.

(** ** Objects made later *)

Section Later.
Context {E : Engine}.
Variable ext : Store.
Implicit Types (s : Store).

Lemma unaware_lift {A} (o : Outcome A) s : unaware ext (lift o) s.
Proof. reflexivity. Qed.

Lemma unaware_bind {A B} (m : M A) (k : A -> M B) s :
  unaware ext m s ->
  (forall a s1, m s = Some (Ok a, s1) -> unaware ext (k a) s1) ->
  unaware ext (x <- m ;; k x) s.
Proof.
  unfold unaware, bind. intros Hm Hk. rewrite Hm.
  destruct (m s) as [[[a|e] s1]|]; [|reflexivity..].
  apply Hk. reflexivity.
Qed.

Lemma unaware_deref r s : r < length s -> unaware ext (deref r) s.
Proof.
  intros Hr. unfold unaware, deref. rewrite lookup_app_l by exact Hr.
  destruct (s !! r); reflexivity.
Qed.

Lemma deref_inv r s o s1 :
  deref r s = Some (Ok o, s1) -> s !! r = Some o /\ s1 = s.
Proof.
  unfold deref. destruct (s !! r); intros [= <- <-]; auto.
Qed.

Lemma unaware_get_rand_weight self s :
  self < length s -> unaware ext (get_rand_weight self) s.
Proof.
  intros Hs. apply unaware_bind; [apply unaware_deref, Hs|].
  intros o s1 _. destruct o;
    first [apply (unaware_lift (Ok _)) | apply (unaware_lift (Raise _))].
Qed.

Lemma unaware_get_dense self s :
  self < length s -> unaware ext (get_dense self) s.
Proof.
  intros Hs. apply unaware_bind; [apply unaware_deref, Hs|].
  intros o s1 _. destruct o;
    first [apply (unaware_lift (Ok _)) | apply (unaware_lift (Raise _))].
Qed.

Lemma get_dense_inv self s d s1 :
  get_dense self s = Some (Ok d, s1) ->
  s1 = s /\ exists f w, s !! self = Some (FixedHiddenMLP f w d).
Proof.
  unfold get_dense, bind, deref.
  destruct (s !! self) as [[]|]; try discriminate.
  intros [= <- <-]. eauto.
Qed.

Lemma get_rand_weight_inv self s w s1 :
  get_rand_weight self s = Some (Ok w, s1) -> s1 = s.
Proof.
  unfold get_rand_weight, bind, deref.
  destruct (s !! self) as [[]|]; try discriminate.
  intros [= <- <-]. reflexivity.
Qed.

Lemma unaware_run_halve_while n x s : unaware ext (run_halve_while n x) s.
Proof.
  unfold unaware, run_halve_while. destruct (halve_while n x); reflexivity.
Qed.

(** What a call needs of the store it runs on, and what it keeps. *)
Lemma call_keeps_closed n u y s o s1 :
  call n u y s = Some (o, s1) -> closed s -> closed s1 /\ length s1 = length s.
Proof.
  intros Hc Hs. pose proof (call_keeps_classes n u y s o s1 Hc) as Hf.
  split; [exact (closed_related _ _ _ Hf Hs)|].
  symmetry. exact (Forall2_length _ _ _ Hf).
Qed.

Section Step.
Variable apply : ref -> Tensor -> M Tensor.
Hypothesis apply_keeps : forall u y s o s1,
  apply u y s = Some (o, s1) -> closed s -> closed s1 /\ length s1 = length s.
Hypothesis apply_unaware : forall u y s,
  closed s -> u < length s -> unaware ext (apply u y) s.

Lemma unaware_MySequential_call modules : forall x s,
  closed s -> Forall (fun u => u < length s) modules ->
  unaware ext (MySequential_call apply modules x) s.
Proof.
  induction modules as [|u l IH]; intros x s Hs Hl; cbn [MySequential_call].
  - apply (unaware_lift (Ok x)).
  - inversion Hl; subst. apply unaware_bind; [apply apply_unaware; assumption|].
    intros a s1 Ha. destruct (apply_keeps _ _ _ _ _ Ha Hs) as [Hs1 Hlen].
    apply IH; [exact Hs1|]. rewrite Hlen. assumption.
Qed.

Lemma unaware_FixedHiddenMLP_call n self f w d x s :
  closed s -> s !! self = Some (FixedHiddenMLP f w d) ->
  unaware ext (FixedHiddenMLP_call apply n self f x) s.
Proof.
  intros Hs Hself.
  assert (Hlt : self < length s) by (eapply lookup_lt_Some; eauto).
  assert (Hf : f < length s)
    by (apply (Hs self _ f Hself); simpl; auto).
  unfold FixedHiddenMLP_call, FixedHiddenMLP_hidden.
  apply unaware_bind.
  - apply unaware_bind; [apply apply_unaware; assumption|].
    intros x1 s1 H1. destruct (apply_keeps _ _ _ _ _ H1 Hs) as [Hs1 Hlen].
    apply unaware_bind; [apply unaware_get_rand_weight; lia|].
    intros w' s2 H2. apply get_rand_weight_inv in H2 as ->.
    apply unaware_bind; [apply unaware_lift|].
    intros p s3 H3. injection H3 as _ <-.
    apply unaware_bind; [apply unaware_get_dense; lia|].
    intros d' s4 H4. apply get_dense_inv in H4 as (-> & f' & w'' & Hself1).
    apply apply_unaware; [exact Hs1|].
    apply (Hs1 self _ d' Hself1). simpl. auto.
  - intros x3 s1 _. apply unaware_bind; [apply unaware_run_halve_while|].
    intros x4 s2 _. apply (unaware_lift (Ok _)).
Qed.

End Step.

Lemma call_unaware n : forall self x s,
  closed s -> self < length s -> unaware ext (call n self x) s.
Proof.
  induction n as [|n IH]; intros self x s Hs Hself; [reflexivity|].
  rewrite call_S. apply unaware_bind; [apply unaware_deref, Hself|].
  intros o s1 Ho. apply deref_inv in Ho as [Ho ->].
  destruct o as [l|hidden out|modules|flatten w dense|net dense|v].
  - unfold unaware. destruct (layer_call l x) as [y l'].
    rewrite insert_app_l by exact Hself. reflexivity.
  - apply unaware_bind.
    + apply IH; [exact Hs|]. apply (Hs self _ hidden Ho). simpl. auto.
    + intros h s1 Hh. destruct (call_keeps_closed _ _ _ _ _ _ Hh Hs) as [Hs1 Hlen].
      apply IH; [exact Hs1|]. rewrite Hlen.
      apply (Hs self _ out Ho). simpl. auto.
  - apply unaware_MySequential_call; [apply call_keeps_closed|exact IH|exact Hs|].
    rewrite List.Forall_forall. intros u Hu. exact (Hs self _ u Ho Hu).
  - eapply unaware_FixedHiddenMLP_call;
      [apply call_keeps_closed|exact IH|exact Hs|exact Ho].
  - apply unaware_bind.
    + apply IH; [exact Hs|]. apply (Hs self _ net Ho). simpl. auto.
    + intros h s1 Hh. destruct (call_keeps_closed _ _ _ _ _ _ Hh Hs) as [Hs1 Hlen].
      apply IH; [exact Hs1|]. rewrite Hlen.
      apply (Hs self _ dense Ho). simpl. auto.
  - apply (unaware_lift (Raise NotCallable)).
Qed.

End Later.

Section LaterFacts.
Context {E : Engine}.

Lemma closedb_closed (s : Store) : closedb s = true -> closed s.
Proof.
  unfold closedb. rewrite forallb_forall. intros H r o c Hr Hin.
  assert (Ho : In o s).
  { apply list_elem_of_In. eapply list_elem_of_lookup_2. exact Hr. }
  specialize (H o Ho). rewrite forallb_forall in H.
  apply Nat.ltb_lt, H, Hin.
Qed.

(** X13.  Objects made later do not matter.  The constructors only add
    objects at the end of the store.  On a store whose objects refer to
    objects of the store only, a call of a block that was there before
    returns what it returned without the new objects, at every fuel, and
    leaves the new objects as they are: wrapping existing blocks in a new
    [MySequential] changes nothing for the blocks themselves. *)
Theorem later_objects_do_not_matter n self x (s : Store) args c s1 :
  closed s -> self < length s ->
  MySequential_init args s = Some (Ok c, s1) ->
  (forall ext : Store,
     call n self x (s ++ ext)
     = match call n self x s with
       | Some (o, s') => Some (o, s' ++ ext)
       | None => None
       end) /\
  call n self x s1
  = match call n self x s with
    | Some (o, s') => Some (o, s' ++ [MySequential args])
    | None => None
    end.
Proof.
  intros Hs Hself Hinit. split.
  - intros ext. apply call_unaware; assumption.
  - rewrite MySequential_init_spec in Hinit. inversion Hinit; subst.
    apply call_unaware; assumption.
Qed.

End LaterFacts.

(** ** Stores the constructors build *)

Section OrderFacts.
Context {E : Engine}.
Implicit Types (s : Store).

Lemma ordered_from_spec s : forall k,
  ordered_from k s = true ->
  forall r o c, s !! r = Some o -> In c (children o) -> c < k + r.
Proof.
  induction s as [|o' s IH]; intros k Hk r o c Hr Hin; [discriminate Hr|].
  cbn [ordered_from] in Hk. apply andb_true_iff in Hk as [Ho Hs].
  destruct r as [|r].
  - injection Hr as ->. rewrite forallb_forall in Ho.
    apply Ho, Nat.ltb_lt in Hin. lia.
  - specialize (IH (S k) Hs r o c Hr Hin). lia.
Qed.

Lemma orderedb_ordered s : orderedb s = true -> ordered s.
Proof. intros H r o c. apply (ordered_from_spec s 0 H). Qed.

Lemma ordered_closed s : ordered s -> closed s.
Proof.
  intros Hs r o c Hr Hin. specialize (Hs r o c Hr Hin).
  apply lookup_lt_Some in Hr. lia.
Qed.

Lemma ordered_reaches s a b : ordered s -> reaches s a b -> b < a.
Proof.
  intros Hs. induction 1 as [r o c Hr Hc|r1 r2 r3 _ IH1 _ IH2].
  - exact (Hs r o c Hr Hc).
  - lia.
Qed.

Lemma ordered_acyclic s r : ordered s -> ~ cyclic s r.
Proof.
  intros Hs Hc. apply (ordered_reaches s r r Hs) in Hc. lia.
Qed.

Lemma ordered_snoc s o :
  ordered s -> Forall (fun c => c < length s) (children o) ->
  ordered (s ++ [o]).
Proof.
  intros Hs Ho r o' c Hr Hin.
  destruct (Nat.lt_ge_cases r (length s)) as [Hlt|Hge].
  - rewrite lookup_app_l in Hr by exact Hlt. exact (Hs r o' c Hr Hin).
  - rewrite lookup_app_r in Hr by exact Hge.
    destruct (r - length s) as [|k] eqn:Hk; [|discriminate Hr].
    injection Hr as <-. rewrite List.Forall_forall in Ho.
    specialize (Ho c Hin). lia.
Qed.

Lemma ordered_related R s s' :
  Forall2 (related_obj R) s s' -> ordered s -> ordered s'.
Proof.
  intros Hf Hs r o c Hr Hin.
  destruct (Forall2_lookup_r _ _ _ _ _ Hf Hr) as (o' & Ho' & Hrel).
  apply (Hs r o' c Ho'). rewrite (children_related _ _ _ Hrel). exact Hin.
Qed.

Lemma loop_free_related R s s' :
  Forall2 (related_obj R) s s' -> loop_free s = true -> loop_free s' = true.
Proof.
  unfold loop_free. induction 1 as [|o o' s s' Ho _ IH]; [reflexivity|].
  cbn [forallb]. rewrite !andb_true_iff. intros [Hhead Htail].
  split; [|auto].
  destruct o, o'; simpl in Ho; try discriminate; try reflexivity;
    discriminate Hhead.
Qed.

Lemma loop_free_lookup s r f w d :
  loop_free s = true -> s !! r <> Some (FixedHiddenMLP f w d).
Proof.
  unfold loop_free. rewrite forallb_forall. intros H Hr.
  assert (Ho : In (FixedHiddenMLP f w d) s).
  { apply list_elem_of_In. eapply list_elem_of_lookup_2. exact Hr. }
  specialize (H _ Ho). discriminate H.
Qed.

(** X14.  The constructors keep the store ordered.  From a store in which
    every object refers to objects made before it, [MySequential(...)] on
    blocks that exist, [MLP()] and [FixedHiddenMLP()] give a store of the
    same kind: every reference names an object of the store, and no block
    reaches itself.  The constructors make no cycle. *)
Theorem constructors_keep_order s self s' :
  ordered s ->
  (exists args, Forall (fun u => u < length s) args /\
                MySequential_init args s = Some (Ok self, s')) \/
  (exists hidden_layer out_layer,
     MLP_init hidden_layer out_layer s = Some (Ok self, s')) \/
  (exists flatten_layer dense_layer drawn,
     FixedHiddenMLP_init flatten_layer dense_layer drawn s
     = Some (Ok self, s')) ->
  ordered s' /\ closed s' /\ forall r, ~ cyclic s' r.
Proof.
  intros Hs Hinit.
  assert (Ho : ordered s').
  { destruct Hinit as [(args & Hargs & Hinit)|[(hl & ol & Hinit)
                      |(fl & dl & w & Hinit)]].
    - rewrite MySequential_init_spec in Hinit. inversion Hinit; subst.
      apply ordered_snoc; assumption.
    - rewrite MLP_init_spec in Hinit. inversion Hinit; subst.
      change (s ++ [KerasLayer hl; KerasLayer ol; MLP (length s) (S (length s))])
        with (s ++ [KerasLayer hl] ++ [KerasLayer ol]
                ++ [MLP (length s) (S (length s))]).
      rewrite !app_assoc.
      repeat apply ordered_snoc; try exact Hs; simpl; try constructor.
      + rewrite !length_app. simpl. lia.
      + constructor; [|constructor]. rewrite !length_app. simpl. lia.
    - rewrite FixedHiddenMLP_init_spec in Hinit. inversion Hinit; subst.
      change (s ++ [KerasLayer fl; KerasLayer dl;
                    FixedHiddenMLP (length s) w (S (length s))])
        with (s ++ [KerasLayer fl] ++ [KerasLayer dl]
                ++ [FixedHiddenMLP (length s) w (S (length s))]).
      rewrite !app_assoc.
      repeat apply ordered_snoc; try exact Hs; simpl; try constructor.
      + rewrite !length_app. simpl. lia.
      + constructor; [|constructor]. rewrite !length_app. simpl. lia. }
  split; [exact Ho|]. split; [apply ordered_closed, Ho|].
  intros r. apply ordered_acyclic, Ho.
Qed.

Lemma MySequential_call_ends (apply : ref -> Tensor -> M Tensor) n modules :
  (forall u y s, ordered s -> loop_free s = true -> u < n ->
     exists o s', apply u y s = Some (o, s')) ->
  (forall u y, keeps (fun _ _ => True) (apply u y)) ->
  forall x s, ordered s -> loop_free s = true ->
    Forall (fun u => u < n) modules ->
    exists o s', MySequential_call apply modules x s = Some (o, s').
Proof.
  intros Hends Hkeeps.
  induction modules as [|u l IH]; intros x s Hs Hl Hm; cbn [MySequential_call].
  - unfold ret. eauto.
  - inversion Hm as [|? ? Hu Hrest]; subst. unfold bind.
    destruct (Hends u x s Hs Hl Hu) as (o & s1 & Hrun).
    rewrite Hrun. destruct o as [y|e]; [|eauto].
    pose proof (Hkeeps u x s _ _ Hrun) as Hf.
    apply IH; [eapply ordered_related|eapply loop_free_related|]; eauto.
Qed.

(** X15.  Calls on an ordered store end.  On a store in which every object
    refers to objects made before it, a call of a block returns or raises,
    unless an object with the [while] loop is in the store: a fuel above the
    block's reference is enough.  Only blocks that were changed after their
    construction, or the loop, can keep a call from ending. *)
Theorem calls_end_on_ordered_stores n self x s :
  ordered s -> loop_free s = true -> self < n ->
  exists o s', call n self x s = Some (o, s').
Proof.
  revert self x s.
  induction n as [|n IH]; intros self x s Hs Hl Hn; [lia|].
  rewrite call_S. unfold bind at 1, deref.
  destruct (s !! self) as [ob|] eqn:Hself; [|unfold raise; eauto].
  assert (Hc : forall c, In c (children ob) -> c < n).
  { intros c Hin. specialize (Hs self ob c Hself Hin). lia. }
  destruct ob as [l|hidden out|modules|flatten w dense|net dense|v].
  - destruct (layer_call l x) as [y l']. eauto.
  - unfold bind.
    destruct (IH hidden x s Hs Hl) as (o & s1 & H1);
      [apply Hc; simpl; auto|].
    rewrite H1. destruct o as [h|e]; [|eauto].
    pose proof (call_keeps_classes n hidden x s _ _ H1) as Hf.
    apply IH; [eapply ordered_related|eapply loop_free_related|]; eauto.
    apply Hc; simpl; auto.
  - apply (MySequential_call_ends (call n) n modules); auto.
    + apply call_keeps_classes.
    + rewrite List.Forall_forall. exact Hc.
  - exfalso. exact (loop_free_lookup s self flatten w dense Hl Hself).
  - unfold bind.
    destruct (IH net x s Hs Hl) as (o & s1 & H1);
      [apply Hc; simpl; auto|].
    rewrite H1. destruct o as [h|e]; [|eauto].
    pose proof (call_keeps_classes n net x s _ _ H1) as Hf.
    apply IH; [eapply ordered_related|eapply loop_free_related|]; eauto.
    apply Hc; simpl; auto.
  - unfold raise. eauto.
Qed.

End OrderFacts.

(** ** The further properties on the small stores *)

Section MoreWitnesses.
Import F32 Examples Gpus.

Lemma new_MLP_runs_hidden_then_out_witness :
  MLP_init dense_a dense_b []
  = Some (Ok 2, [KerasLayer dense_a; KerasLayer dense_b; MLP 0 1]) /\
  call 2 2 x0 [KerasLayer dense_a; KerasLayer dense_b; MLP 0 1]
  = Some (Ok (T2 [[S754_finite false 11534336 (-20)]]),
          [KerasLayer dense_a; KerasLayer dense_b; MLP 0 1]).
Proof.
  assert (Hinit : MLP_init (E:=engine) dense_a dense_b []
                  = Some (Ok 2, [KerasLayer dense_a; KerasLayer dense_b;
                                 MLP 0 1])) by run_both.
  split; [exact Hinit|].
  eapply eq_trans.
  - exact (new_MLP_runs_hidden_then_out (E:=engine) 0 dense_a dense_b x0 []
             2 _ Hinit).
  - run_both.
Defined.

Lemma two_step_blocks_are_sequential_witness :
  call 2 2 x0 (two_layers ++ [MLP 0 1; MySequential [0; 1]])
  = call 2 3 x0 (two_layers ++ [MLP 0 1; MySequential [0; 1]]).
Proof.
  apply (two_step_blocks_are_sequential (E:=engine) 1 2 3 0 1 x0
           (two_layers ++ [MLP 0 1; MySequential [0; 1]])).
  - left. run_both.
  - run_both.
Defined.

Lemma call_never_rewires_blocks_witness :
  call (E:=counting_engine) 5 2 x0 (counted_store 0)
  = Some (Ok (T0 (S754_finite false 10223616 (-23))), counted_store 1) /\
  forall a b, reaches (counted_store 0) a b <-> reaches (counted_store 1) a b.
Proof.
  assert (Hcall : call (E:=counting_engine) 5 2 x0 (counted_store 0)
                  = Some (Ok (T0 (S754_finite false 10223616 (-23))),
                          counted_store 1)) by run_both.
  split; [exact Hcall|].
  destruct (call_never_rewires_blocks (E:=counting_engine) 5 2 x0
              (counted_store 0) _ (counted_store 1) Hcall) as (_ & _ & _ & H).
  exact H.
Defined.

Lemma FixedHiddenMLP_returns_sum_of_small_tensor_witness :
  call 6 2 x0 fixed_store
  = Some (Ok (T0 (S754_finite false 10223616 (-23))), fixed_store) /\
  exists x3 k,
    ltb (of_Z 1) (norm32 (halved k x3)) = false /\
    T0 (S754_finite false 10223616 (-23)) = T0 (sum (entries (halved k x3))).
Proof.
  assert (Hcall : call (E:=engine) 6 2 x0 fixed_store
                  = Some (Ok (T0 (S754_finite false 10223616 (-23))),
                          fixed_store)) by run_both.
  split; [exact Hcall|].
  destruct (FixedHiddenMLP_returns_sum_of_small_tensor (E:=engine) 6 2 0
              small_weight 1 Flatten dense_a x0
              (T0 (S754_finite false 10223616 (-23))) fixed_store fixed_store)
    as (x1 & p & x3 & k & _ & _ & _ & Hout & _ & Hy & _);
    [run_both|run_both|run_both|discriminate|exact Hcall|].
  exists x3, k. split; [exact Hout|exact Hy].
Defined.

Lemma FixedHiddenMLP_raises_first_error_witness :
  call 2 2 (T2 [[one; two; one]]) fixed_store
  = Some (Raise ShapeMismatch, fixed_store).
Proof.
  destruct (FixedHiddenMLP_raises_first_error (E:=engine) 0 2 0 small_weight 1
              Flatten dense_a (T2 [[one; two; one]]) ShapeMismatch fixed_store)
    as (_ & H); [run_both|run_both|run_both|discriminate|].
  destruct H as (H & _).
  - right. exists (T2 [[one; two; one]]). split; run_both.
  - eapply eq_trans; [exact H|run_both].
Defined.

Lemma nan_leaves_loop_at_once_witness :
  FixedHiddenMLP_hidden (call 1) 2 0 (T2 [[S754_nan; one]]) fixed_store
  = Some (Ok (T2 [[S754_nan; S754_nan]]), fixed_store) /\
  call 2 2 (T2 [[S754_nan; one]]) fixed_store
  = Some (Ok (T0 S754_nan), fixed_store).
Proof.
  assert (Hhidden : FixedHiddenMLP_hidden (E:=engine) (call 1) 2 0
                      (T2 [[S754_nan; one]]) fixed_store
                    = Some (Ok (T2 [[S754_nan; S754_nan]]), fixed_store))
    by run_both.
  split; [exact Hhidden|].
  destruct (nan_leaves_loop_at_once 1 2 0 small_weight 1
              (T2 [[S754_nan; one]]) (T2 [[S754_nan; S754_nan]])
              fixed_store fixed_store) as (_ & H);
    [run_both|exact Hhidden|reflexivity|].
  apply H; lia.
Defined.

Lemma infinity_never_leaves_loop_witness :
  FixedHiddenMLP_hidden (call 1) 2 0 (T2 [[pinf; one]]) fixed_store
  = Some (Ok (T2 [[pinf; pinf]]), fixed_store) /\
  forall m, call m 2 (T2 [[pinf; one]]) fixed_store = None.
Proof.
  assert (Hhidden : FixedHiddenMLP_hidden (E:=engine) (call 1) 2 0
                      (T2 [[pinf; one]]) fixed_store
                    = Some (Ok (T2 [[pinf; pinf]]), fixed_store))
    by run_both.
  split; [exact Hhidden|].
  destruct (infinity_never_leaves_loop 1 2 0 small_weight 1
              (T2 [[pinf; one]]) (T2 [[pinf; pinf]])
              fixed_store fixed_store) as (_ & H);
    [run_both|exact Hhidden|reflexivity|reflexivity|].
  exact H.
Defined.

Lemma FixedHiddenMLP_never_negative_witness :
  call 6 2 x0 fixed_store
  = Some (Ok (T0 (S754_finite false 10223616 (-23))), fixed_store) /\
  exists v, T0 (S754_finite false 10223616 (-23)) = T0 v /\
            nonneg_or_nan v = true.
Proof.
  assert (Hcall : call (E:=engine) 6 2 x0 fixed_store
                  = Some (Ok (T0 (S754_finite false 10223616 (-23))),
                          fixed_store)) by run_both.
  split; [exact Hcall|].
  apply (FixedHiddenMLP_never_negative 6 2 0 small_weight 1 Flatten
           [[one; one]; [half; one]] [zero; one] x0
           (T0 (S754_finite false 10223616 (-23))) fixed_store fixed_store);
    [run_both|run_both|run_both|discriminate|exact Hcall].
Defined.

Lemma later_objects_do_not_matter_witness :
  closed nested_store /\
  MySequential_init [3; 4] nested_store
  = Some (Ok 5, nested_store ++ [MySequential [3; 4]]) /\
  call 3 3 x0 (nested_store ++ [MySequential [3; 4]])
  = Some (Ok (T2 [[S754_finite false 8519680 (-18)]]),
          nested_store ++ [MySequential [3; 4]]).
Proof.
  assert (Hclosed : closed (E:=engine) nested_store)
    by (apply closedb_closed; reflexivity).
  assert (Hinit : MySequential_init (E:=engine) [3; 4] nested_store
                  = Some (Ok 5, nested_store ++ [MySequential [3; 4]]))
    by run_both.
  split; [exact Hclosed|]. split; [exact Hinit|].
  destruct (later_objects_do_not_matter (E:=engine) 3 3 x0 nested_store
              [3; 4] 5 _ Hclosed ltac:(simpl; lia) Hinit) as (_ & H).
  eapply eq_trans; [exact H|run_both].
Defined.

Lemma constructors_keep_order_witness :
  ordered nested_store /\
  MySequential_init [3; 4] nested_store
  = Some (Ok 5, nested_store ++ [MySequential [3; 4]]) /\
  ordered (nested_store ++ [MySequential [3; 4]]) /\
  forall r, ~ cyclic (nested_store ++ [MySequential [3; 4]]) r.
Proof.
  assert (Hordered : ordered (E:=engine) nested_store)
    by (apply orderedb_ordered; reflexivity).
  assert (Hinit : MySequential_init (E:=engine) [3; 4] nested_store
                  = Some (Ok 5, nested_store ++ [MySequential [3; 4]]))
    by run_both.
  split; [exact Hordered|]. split; [exact Hinit|].
  destruct (constructors_keep_order (E:=engine) nested_store 5
              (nested_store ++ [MySequential [3; 4]]) Hordered)
    as (H1 & _ & H3).
  - left. exists [3; 4]. split; [|exact Hinit].
    repeat constructor.
  - split; [exact H1|exact H3].
Defined.

Lemma calls_end_on_ordered_stores_witness :
  exists o s', call 4 3 x0 nested_store = Some (o, s').
Proof.
  apply (calls_end_on_ordered_stores (E:=engine) 4 3 x0 nested_store).
  - apply orderedb_ordered. reflexivity.
  - reflexivity.
  - lia.
Defined.

End MoreWitnesses.
